(** * firebary: the [Collection] accessor over a Firestore collection

    A shallow embedding of [collection.ts] and [types/query-options.type.ts].

    - JavaScript objects are records of own properties (a finite map from
      property name to value) and of the properties reachable through the
      prototype chain.
    - The Firestore client is an explicit store threaded through a small
      state-and-exception monad; every document read and write the client is
      asked to perform is also appended to a trace.
    - The query builder is a collection name and the list of builder calls
      applied to it, in call order.
    - The client validates what it is given, and throws: the data of a
      document to write, the arguments of a builder call. These checks are
      the client's, not the accessor's: they are two interfaces,
      [WriteChecks] and [QueryChecks], and the accessor is modelled and
      verified for every client that implements them.

    Covered: the constructor and [validate], [getCollection], [getSingle],
    [addSingle], [addMany], [updateSingle], [updateMany], [deleteSingle],
    [getCollectionFromDB], [getSingleFromDB], [getDocumentSnapshot],
    [assembleQuery] and [assembleUpdateObject]. Of the store, the model keeps
    what the accessor relies on: documents by collection and id, refused
    paths, updates that need their document, batches that are all or
    nothing. Evaluating a query is left to the store. *)

From stdpp Require Import base option list gmap strings fin_maps.
From Stdlib Require Import ZArith Ascii Lia.

Local Open Scope string_scope.
Local Open Scope list_scope.

(** ** JavaScript values and objects *)

Module Js.

(** The values the accessor inspects: primitives, plus a reference to some
    other heap object, about which the code only ever asks whether it is
    truthy. Numbers are restricted to integers. *)
Inductive value : Type :=
| VUndefined
| VNull
| VBool (b : bool)
| VNum (n : Z)
| VStr (s : string)
| VRef (address : nat).

#[global] Instance value_eq_dec : EqDecision value.
Proof. solve_decision. Defined.

(** JavaScript's ToBoolean, as used by [if (x)], [!x] and [x ? a : b]. *)
Class Truthy (T : Type) := truthy : T → bool.

#[global] Instance string_truthy : Truthy string :=
  fun s => match s with EmptyString => false | String _ _ => true end.

#[global] Instance value_truthy : Truthy value :=
  fun v =>
    match v with
    | VUndefined | VNull => false
    | VBool b => b
    | VNum n => negb (n =? 0)%Z
    | VStr s => truthy s
    | VRef _ => true
    end.

(** [null] or a value of type [T]. *)
#[global] Instance option_truthy {T} `{Truthy T} : Truthy (option T) :=
  fun o => match o with None => false | Some x => truthy x end.

(** ToBoolean of an optional object: an object is truthy, [undefined] is
    not. *)
Definition present {A} (o : option A) : bool :=
  match o with Some _ => true | None => false end.

(** An object: its own properties, and the properties it inherits. *)
Record object : Type := mkObject {
  own : gmap string value;
  inherited : gmap string value;
}.

(** An object literal: own properties only. *)
Definition literal (props : gmap string value) : object :=
  {| own := props; inherited := ∅ |}.

(** [Object.getOwnPropertyNames(o)] *)
Definition getOwnPropertyNames (o : object) : list string :=
  (map_to_list (own o)).*1.

(** [prop in o] *)
Definition has_property (prop : string) (o : object) : bool :=
  bool_decide (is_Some (own o !! prop)) || bool_decide (is_Some (inherited o !! prop)).

(** [o[prop]] *)
Definition get (o : object) (prop : string) : value :=
  match own o !! prop with
  | Some v => v
  | None => default VUndefined (inherited o !! prop)
  end.

(** [o[prop] = v] *)
Definition set (o : object) (prop : string) (v : value) : object :=
  {| own := <[prop := v]> (own o); inherited := inherited o |}.

(** [{ ...o }]: a fresh literal with the own properties of [o]. *)
Definition spread (o : object) : gmap string value := own o.

(** [const { prop, ...rest } = o]: the own properties of [o] but [prop]. *)
Definition rest_without (prop : string) (o : object) : gmap string value :=
  delete prop (own o).

(** [Array.prototype.includes] on an array of strings. *)
Definition includes (l : list string) (x : string) : bool :=
  bool_decide (x ∈ l).

(** [a === s] for a string [s]. *)
Definition strict_eq_string (s : string) (v : value) : bool :=
  match v with
  | VStr s' => bool_decide (s = s')
  | _ => false
  end.

Definition lower_ascii (c : ascii) : ascii :=
  let n := nat_of_ascii c in
  if (65 <=? n)%nat && (n <=? 90)%nat then ascii_of_nat (n + 32) else c.

(** [s.toLocaleLowerCase()], on names written in ASCII: the letters [A]
    to [Z] are mapped to [a] to [z], every other character is kept. *)
Fixpoint toLocaleLowerCase (s : string) : string :=
  match s with
  | EmptyString => EmptyString
  | String c s' => String (lower_ascii c) (toLocaleLowerCase s')
  end.

(** [Array.prototype.find] *)
Fixpoint find {A} (p : A → bool) (l : list A) : option A :=
  match l with
  | [] => None
  | x :: l' => if p x then Some x else find p l'
  end.

(** [Array.prototype.some] *)
Definition some {A} (p : A → bool) (l : list A) : bool := existsb p l.

End Js.

Import Js.

(** ** Exceptions *)

Inductive Exn : Type :=
| Error (message : string)      (* [throw new Error(message)] *)
| TypeError                     (* a property read on [null] *)
| InvalidResourcePath.          (* the client refuses a document path that is not a non-empty string *)

#[global] Instance Exn_eq_dec : EqDecision Exn.
Proof. solve_decision. Defined.

Inductive Result (A : Type) : Type :=
| Ok (a : A)
| Throw (e : Exn).
Arguments Ok {A} a.
Arguments Throw {A} e.

(** Synchronous code: a [throw] ends it. *)
#[global] Instance Result_ret : MRet Result := fun A a => Ok a.
#[global] Instance Result_bind : MBind Result := fun A B f r =>
  match r with
  | Ok a => f a
  | Throw e => Throw e
  end.

(** [array.forEach(x => { b = f(b, x) })]: the first [throw] ends the loop. *)
Fixpoint foldlR {A B} (f : B → A → Result B) (b : B) (l : list A) : Result B :=
  match l with
  | [] => Ok b
  | x :: l' => b' ← f b x; foldlR f b' l'
  end.

(** ** Record shapes and the accessor *)

(** Modelled from the spec: [interfaces/type.interface.ts], which declares
    [Type], is not among the sources. A record shape is a named declaration
    of the fields of one variant of record. The code uses a [Type] in two
    ways only: it reads [t.name], and it builds a blank instance with
    [new t.prototype.constructor()]. A shape is its name and the instance
    that the constructor returns. *)
Record Type_ : Type := mkType {
  name : string;
  blank : object;
}.

Record Collection : Type := mkCollection {
  types : list Type_;
  collectionName : string;
  isSingleType : bool;
}.

(** [validate()] *)
Definition validate (this : Collection) : Result unit :=
  if (length (types this) <? 1)%nat then
    Throw (Error "No types passed in.")
  else if negb (isSingleType this)
          && some (fun t => negb (has_property "type" (blank t))) (types this) then
    Throw (Error "Invalid types passed in. For a multi-type container, each type passed in must have a 'type' property.")
  else Ok tt.

(** [new Collection(options, types, collectionName)]. The connection
    settings only reach the Firestore client and are left out. *)
Definition constructor (types : list Type_) (collectionName : string)
  : Result Collection :=
  let this := {| types := types;
                 collectionName := collectionName;
                 isSingleType := (length types =? 1)%nat |} in
  match validate this with
  | Ok _ => Ok this
  | Throw e => Throw e
  end.

(** ** The update projector *)

(** The shape an update payload is projected on. *)
Definition deriveUpdateType (this : Collection) (partialObject : object)
  : option Type_ :=
  if isSingleType this then
    head (types this)
  else
    find (fun t => has_property "type" partialObject
                   && strict_eq_string (toLocaleLowerCase (name t))
                                       (get partialObject "type"))
         (types this).

(** The body of the [forEach] callback of [assembleUpdateObject]. *)
Definition copyProp (saveObjectProps : list string) (partialObject : object)
    (saveObject : gmap string value) (prop : string) : gmap string value :=
  if negb (bool_decide (prop = "type"))
     && includes saveObjectProps prop
     && has_property prop partialObject
  then <[prop := get partialObject prop]> saveObject
  else saveObject.

(** [assembleUpdateObject(partialObject)] *)
Definition assembleUpdateObject (this : Collection) (partialObject : object)
  : Result (gmap string value) :=
  let partialObjectProps := getOwnPropertyNames partialObject in
  match deriveUpdateType this partialObject with
  | None => Throw (Error "Could not derive updateType from partialObject.")
  | Some updateType =>
      let saveObjectProps := getOwnPropertyNames (blank updateType) in
      Ok (foldl (copyProp saveObjectProps partialObject) ∅ partialObjectProps)
  end.

(** ** The Firestore client *)

Abbreviation DocumentData := (gmap string value).

(** A document reference: collection name and document id. Document ids are
    taken as plain ids (no [/] separated sub-paths). *)
Abbreviation DocumentReference := (string * string)%type.

Record DocumentSnapshot : Type := mkSnapshot {
  ref : DocumentReference;
  data : option DocumentData;
}.

(** [snapshot.exists] *)
Definition exists_ (s : DocumentSnapshot) : bool := bool_decide (is_Some (data s)).

(** What the client was asked to do to the store. *)
Inductive Event : Type :=
| DocRead (r : DocumentReference)
| DocWrite (r : DocumentReference) (d : DocumentData).

Record Firestore : Type := mkFirestore {
  documents : gmap DocumentReference DocumentData;
  generated : nat;          (* how many document ids the client has generated *)
  trace : list Event;       (* oldest first *)
}.

(** Computations against the client: they may throw, and they thread the
    store. *)
Definition M (A : Type) : Type := Firestore → Result A * Firestore.

#[global] Instance M_ret : MRet M := fun A a db => (Ok a, db).
#[global] Instance M_bind : MBind M := fun A B f m db =>
  match m db with
  | (Ok a, db') => f a db'
  | (Throw e, db') => (Throw e, db')
  end.
#[global] Instance M_fmap : FMap M := fun A B f m db =>
  match m db with
  | (Ok a, db') => (Ok (f a), db')
  | (Throw e, db') => (Throw e, db')
  end.

Definition throw {A} (e : Exn) : M A := fun db => (Throw e, db).

(** A synchronous result inside an asynchronous method. *)
Definition liftResult {A} (r : Result A) : M A := fun db => (r, db).

(** [array.forEach(callback)] with an effectful callback. *)
Fixpoint forEach {A} (callback : A → M unit) (l : list A) : M unit :=
  match l with
  | [] => mret tt
  | x :: l' => callback x ;; forEach callback l'
  end.

(** [db.collection(collectionName).doc(path)]: the client accepts a
    non-empty string only. *)
Definition doc (collectionName : string) (path : value) : M DocumentReference :=
  match path with
  | VStr id => if truthy id then mret (collectionName, id)
               else throw InvalidResourcePath
  | _ => throw InvalidResourcePath
  end.

(** [docRef.get()] *)
Definition docGet (r : DocumentReference) : M DocumentSnapshot := fun db =>
  (Ok {| ref := r; data := documents db !! r |},
   {| documents := documents db; generated := generated db;
      trace := trace db ++ [DocRead r] |}).

(** The write a [set] performs once it reaches the store; the client lets
    through only data it has validated (see [WriteChecks]). *)
Definition store (r : DocumentReference) (d : DocumentData) : M unit := fun db =>
  (Ok tt, {| documents := <[r := d]> (documents db); generated := generated db;
             trace := trace db ++ [DocWrite r d] |}).

(** The client validates the data of a document before it writes it, on
    [set], [add] and [update], also through a bulk writer or a batch:
    [refusedData d] is the error it throws for [d], and [None] when it takes
    [d]. What the client refuses is the client's business (with its default
    settings, a field whose value is [undefined], for one): the accessor is
    modelled for any such check. *)
Class WriteChecks : Type := refusedData : DocumentData → option Exn.

(** The client's validation, where a write is asked for. *)
Definition validateData `{writeChecks : !WriteChecks} (d : DocumentData) : M unit :=
  match refusedData d with
  | Some e => throw e
  | None => mret tt
  end.

(** The client takes the data. *)
Definition accepted `{writeChecks : !WriteChecks} (d : DocumentData) : bool :=
  bool_decide (refusedData d = None).

(** [docRef.set(data)] *)
Definition docSet `{writeChecks : !WriteChecks} (r : DocumentReference)
    (d : DocumentData) : M unit :=
  validateData d ;;
  store r d.

(** [getDocumentSnapshot(collectionName, id)] *)
Definition getDocumentSnapshot (collectionName id : string) : M DocumentSnapshot :=
  docRef ← doc collectionName (VStr id);
  docGet docRef.

Section AutoId.

Context `{writeChecks : !WriteChecks}.

(** The ids the client generates for [doc()] and [add()], in the order it
    generates them. *)
Variable autoId : nat → string.

(** [db.collection(collectionName).doc()] *)
Definition docAuto (collectionName : string) : M DocumentReference := fun db =>
  (Ok (collectionName, autoId (generated db)),
   {| documents := documents db; generated := S (generated db);
      trace := trace db |}).

(** [db.collection(collectionName).add(data)]: the data is validated, then
    an id is generated. *)
Definition collectionAdd (collectionName : string) (d : DocumentData)
  : M DocumentReference :=
  validateData d ;;
  r ← docAuto collectionName;
  store r d ;;
  mret r.

(** [addSingle(object, hasID)] *)
Definition addSingle (this : Collection) (object : Js.object) (hasID : bool)
  : M Js.object :=
  let id := get object "id" in
  let saveObject := rest_without "id" object in
  if hasID then
    if negb (truthy id) then throw (Error "ID required to add object.")
    else
      docRef ← doc (collectionName this) id;
      snapshot ← docGet docRef;
      if exists_ snapshot then
        throw (Error "Document with this ID already exists.")
      else
        docSet docRef saveObject ;;
        mret object
  else
    res ← collectionAdd (collectionName this) saveObject;
    mret (set object "id" (if truthy id then id else VStr res.2)).

(** A bulk writer: the writes queued so far, oldest first. *)
Definition BulkWriter : Type := list (DocumentReference * DocumentData).

(** [writer.close()]: every queued write reaches the store. *)
Definition close (writer : BulkWriter) : M unit :=
  forEach (fun w => store w.1 w.2) writer.

(** The [forEach] of [addMany], which queues one [set] per object. The
    writer validates the data when the [set] is queued; a refusal throws out
    of the loop, and what the writer had by then sent of the writes queued
    before is not modelled: the writer is then never closed. *)
Fixpoint queueAll (collectionName : string) (objects : list Js.object)
    (writer : BulkWriter) : M BulkWriter :=
  match objects with
  | [] => mret writer
  | obj :: objects' =>
      docRef ← (if truthy (get obj "id")
                then doc collectionName (get obj "id")
                else docAuto collectionName);
      validateData (spread obj) ;;
      queueAll collectionName objects' (writer ++ [(docRef, spread obj)])
  end.

(** [addMany(objects)] *)
Definition addMany (this : Collection) (objects : list Js.object) : M unit :=
  if (500 <? length objects)%nat then
    throw (Error "cannot add more than 500 objects at once")
  else
    writer ← queueAll (collectionName this) objects [];
    close writer.

End AutoId.

(** ** Query options ([types/query-options.type.ts]) *)

(** [FieldPath]: the document identifier, or a path of field names. *)
Inductive FieldPath : Type :=
| documentId
| fieldNames (segments : list string).

(** [string | FieldPath] *)
Inductive FieldRef : Type :=
| byName (field : string)
| byPath (path : FieldPath).

Inductive WhereFilterOp : Type :=
| op_lt | op_le | op_eq | op_ne | op_ge | op_gt
| op_array_contains | op_in | op_not_in | op_array_contains_any.

Inductive OrderByDirection : Type := desc | asc.

Inductive Operator : Type := and_ | or_.

Module PagingOptions.
(** [startAfter] is [None] when it is [null]; [limit] is passed on as it
    is. *)
Record t (T : Type) : Type := make {
  startAfter : option T;
  limit : Z;
}.
Arguments make {T} _ _.
Arguments startAfter {T} _.
Arguments limit {T} _.
End PagingOptions.

Module WhereClause.
Record t (TField : Type) : Type := make {
  field : FieldRef;
  value : TField;
  operation : WhereFilterOp;
}.
Arguments make {TField} _ _ _.
Arguments field {TField} _.
Arguments value {TField} _.
Arguments operation {TField} _.
End WhereClause.

Module WhereOptions.
(** [pagingOptions] is declared as required, and checked again when the
    query is assembled: [None] is an object that lacks it. *)
Record t (TField : Type) : Type := make {
  whereClauses : list (WhereClause.t TField);
  operator : option Operator;
  pagingOptions : option (PagingOptions.t string);
}.
Arguments make {TField} _ _ _.
Arguments whereClauses {TField} _.
Arguments operator {TField} _.
Arguments pagingOptions {TField} _.
End WhereOptions.

Module OrderOptions.
Record t (TField : Type) : Type := make {
  field : string;
  direction : OrderByDirection;
  pagingOptions : option (PagingOptions.t TField);
}.
Arguments make {TField} _ _ _.
Arguments field {TField} _.
Arguments direction {TField} _.
Arguments pagingOptions {TField} _.
End OrderOptions.

Module QueryOptions.
Record t (TField : Type) : Type := make {
  whereOptions : option (WhereOptions.t TField);
  orderOptions : option (OrderOptions.t TField);
  pagingOptions : option (PagingOptions.t TField);
}.
Arguments make {TField} _ _ _.
Arguments whereOptions {TField} _.
Arguments orderOptions {TField} _.
Arguments pagingOptions {TField} _.
End QueryOptions.

(** [STANDARD] *)
Definition STANDARD : QueryOptions.t string :=
  QueryOptions.make None None
    (Some (PagingOptions.make None 10%Z)).

(** ** Queries *)

(** [Filter.where(...)] and [Filter.or(...)] *)
#[warnings="-register-all"] Inductive Filter (TField : Type) : Type :=
| Filter_where (field : FieldRef) (operation : WhereFilterOp) (value : TField)
| Filter_or (filters : list (Filter TField)).
Arguments Filter_where {TField} _ _ _.
Arguments Filter_or {TField} _.

(** What [startAfter] is given: a document snapshot or a field value. *)
Inductive Cursor (TField : Type) : Type :=
| atSnapshot (snapshot : DocumentSnapshot)
| atValue (v : TField).
Arguments atSnapshot {TField} _.
Arguments atValue {TField} _.

(** One call on the query builder. *)
Inductive QueryCall (TField : Type) : Type :=
| where_ (field : FieldRef) (operation : WhereFilterOp) (value : TField)
| whereFilter (filter : Filter TField)
| orderBy (field : FieldRef) (direction : option OrderByDirection)
| startAfter (cursor : Cursor TField)
| limit (n : Z).
Arguments where_ {TField} _ _ _.
Arguments whereFilter {TField} _.
Arguments orderBy {TField} _ _.
Arguments startAfter {TField} _.
Arguments limit {TField} _.

(** [CollectionReference | Query]: the collection and the builder calls made
    on it, first call first. *)
Record Query (TField : Type) : Type := mkQuery {
  collection : string;
  calls : list (QueryCall TField);
}.
Arguments mkQuery {TField} _ _.
Arguments collection {TField} _.
Arguments calls {TField} _.

(** The client validates the arguments of a builder call against the query
    the call is made on (a field path, a value to compare with, a cursor):
    [refusedCall q c] is the error it throws for the call [c] on [q], and
    [None] when it takes the call. What the client refuses is the client's
    business: the accessor is modelled for any such check. *)
Class QueryChecks (TField : Type) : Type :=
  refusedCall : Query TField → QueryCall TField → option Exn.

Section AssembleQuery.

Context {TField : Type} `{!Truthy TField} `{queryChecks : !QueryChecks TField}.

(** [ref.method(...)]. The ordering by document id and an integer limit are
    taken as they are; every other call is first validated by the client. *)
Definition call (ref : Query TField) (c : QueryCall TField)
  : Result (Query TField) :=
  let made := mkQuery (collection ref) (calls ref ++ [c]) in
  match c with
  | orderBy (byPath documentId) _ | limit _ => Ok made
  | _ => match refusedCall ref c with
         | Some e => Throw e
         | None => Ok made
         end
  end.

(** Calls made one after the other, each on the result of the one before. *)
Definition callAll (ref : Query TField) (cs : list (QueryCall TField))
  : Result (Query TField) :=
  foldlR call ref cs.

(** [assembleQuery(collectionName, options)]; [options] is [None] when it
    is [null]. *)
Definition assembleQuery (collectionName : string)
    (options : option (QueryOptions.t TField)) : M (Query TField) :=
  if present (options ≫= QueryOptions.whereOptions)
     && present (options ≫= QueryOptions.orderOptions)
  then throw (Error "Can't use WhereOptions and OrderOptions in the same query.")
  else
    let ref := mkQuery collectionName [] in
    match options ≫= QueryOptions.whereOptions with
    | Some whereOptions =>
        let whereClauses := WhereOptions.whereClauses whereOptions in
        match WhereOptions.pagingOptions whereOptions with
        | None => throw (Error "PagingOptions are required.")
        | Some pagingOptions =>
            last ← match PagingOptions.startAfter pagingOptions with
                   | Some id =>
                       if truthy id
                       then Some <$> getDocumentSnapshot collectionName id
                       else mret None
                   | None => mret None
                   end;
            liftResult
              (ref ← match WhereOptions.operator whereOptions with
                     | Some or_ =>
                         let orWhereClauses :=
                           map (fun wc => Filter_where (WhereClause.field wc)
                                            (WhereClause.operation wc)
                                            (WhereClause.value wc))
                               whereClauses in
                         call ref (whereFilter (Filter_or orWhereClauses))
                     | _ =>
                         foldlR (fun ref wc =>
                                   call ref (where_ (WhereClause.field wc)
                                               (WhereClause.operation wc)
                                               (WhereClause.value wc)))
                                ref whereClauses
                     end;
               ref ← match last with
                     | Some snapshot => call ref (startAfter (atSnapshot snapshot))
                     | None => Ok ref
                     end;
               call ref (limit (PagingOptions.limit pagingOptions)))
        end
    | None =>
        match options ≫= QueryOptions.orderOptions with
        | Some orderOptions =>
            match OrderOptions.pagingOptions orderOptions with
            | None => throw (Error "PagingOptions are required.")
            | Some pagingOptions =>
                liftResult
                  (ref ← call ref (orderBy (byName (OrderOptions.field orderOptions))
                                     (Some (OrderOptions.direction orderOptions)));
                   ref ← match PagingOptions.startAfter pagingOptions with
                         | Some v =>
                             if truthy v then call ref (startAfter (atValue v))
                             else Ok ref
                         | None => Ok ref
                         end;
                   call ref (limit (PagingOptions.limit pagingOptions)))
            end
        | None =>
            match options with
            | None => throw TypeError
            | Some options =>
                match QueryOptions.pagingOptions options with
                | Some pagingOptions =>
                    liftResult
                      (ref ← call ref (orderBy (byPath documentId) None);
                       ref ← match PagingOptions.startAfter pagingOptions with
                             | Some v =>
                                 if truthy v then call ref (startAfter (atValue v))
                                 else Ok ref
                             | None => Ok ref
                             end;
                       call ref (limit (PagingOptions.limit pagingOptions)))
                | None =>
                    liftResult
                      (ref ← call ref (orderBy (byPath documentId) (Some asc));
                       call ref (limit 10%Z))
                end
            end
        end
    end.

End AssembleQuery.

(** ** Reading, updating and deleting documents *)

(** [getSingleFromDB(collectionName, id)]: [snapshot.data()] is [None] when
    it is [undefined]. *)
Definition getSingleFromDB (collectionName id : string) : M (option DocumentData) :=
  snapshot ← getDocumentSnapshot collectionName id;
  mret (data snapshot).

(** [getSingle(id)] *)
Definition getSingle (this : Collection) (id : string) : M (option DocumentData) :=
  getSingleFromDB (collectionName this) id.

(** The store refuses to update a document that does not exist. *)
Definition NOT_FOUND : Exn := Error "NOT_FOUND: No document to update".

(** The client refuses an update that names no field. *)
Definition EMPTY_UPDATE : Exn := Error "At least one field must be updated.".

(** The write an [update] performs once it reaches the store: the fields
    given replace the document's, the document's other fields stay. Field
    names are taken as top-level names. The trace records the document as it
    is written. *)
Definition merge (r : DocumentReference) (d : DocumentData) : M unit := fun db =>
  match documents db !! r with
  | Some old => store r (d ∪ old) db
  | None => (Throw NOT_FOUND, db)
  end.

Section Updates.

Context `{writeChecks : !WriteChecks}.

(** [docRef.update(data)] *)
Definition docUpdate (r : DocumentReference) (d : DocumentData) : M unit :=
  if bool_decide (d = ∅) then throw EMPTY_UPDATE
  else validateData d ;; merge r d.

(** [docRef.delete()]: it succeeds whether the document exists or not. The
    trace keeps document reads and document writes; a deletion leaves it as
    it is. *)
Definition docDelete (r : DocumentReference) : M unit := fun db =>
  (Ok tt, {| documents := delete r (documents db); generated := generated db;
             trace := trace db |}).

(** A write batch: the updates queued so far, oldest first. *)
Definition WriteBatch : Type := list (DocumentReference * DocumentData).

(** [batch.update(ref, data)] *)
Definition batchUpdate (batch : WriteBatch) (r : DocumentReference)
    (d : DocumentData) : M WriteBatch :=
  if bool_decide (d = ∅) then throw EMPTY_UPDATE
  else validateData d ;; mret (batch ++ [(r, d)]).

(** [batch.commit()]: all the updates reach the store, or none does. *)
Definition commit (batch : WriteBatch) : M unit := fun db =>
  if forallb (fun w => bool_decide (is_Some (documents db !! w.1))) batch
  then forEach (fun w => merge w.1 w.2) batch db
  else (Throw NOT_FOUND, db).

(** [updateSingle(id, partialObject)] *)
Definition updateSingle (this : Collection) (id : string)
    (partialObject : Js.object) : M DocumentData :=
  saveObject ← liftResult (assembleUpdateObject this partialObject);
  docRef ← doc (collectionName this) (VStr id);
  docUpdate docRef saveObject ;;
  mret saveObject.

(** The first [map] of [updateMany]: each payload is projected; the first
    projection that throws ends the [map]. *)
Fixpoint projectAll (this : Collection) (partialObjects : list (string * Js.object))
  : Result (list (string * DocumentData)) :=
  match partialObjects with
  | [] => Ok []
  | po :: partialObjects' =>
      match assembleUpdateObject this po.2 with
      | Throw e => Throw e
      | Ok d =>
          match projectAll this partialObjects' with
          | Throw e => Throw e
          | Ok saveObjects => Ok ((po.1, d) :: saveObjects)
          end
      end
  end.

(** The [forEach] of [updateMany], which queues one [update] per object. *)
Fixpoint queueUpdates (collectionName : string)
    (saveObjects : list (string * DocumentData)) (batch : WriteBatch)
  : M WriteBatch :=
  match saveObjects with
  | [] => mret batch
  | o :: saveObjects' =>
      ref ← doc collectionName (VStr o.1);
      batch' ← batchUpdate batch ref o.2;
      queueUpdates collectionName saveObjects' batch'
  end.

(** [updateMany(partialObjects)]; an element is the pair of its [id] and its
    [data]. The result pairs the [id] of the i-th payload with the [data] of
    the i-th projected object. *)
Definition updateMany (this : Collection)
    (partialObjects : list (string * Js.object))
  : M (list (string * DocumentData)) :=
  saveObjects ← liftResult (projectAll this partialObjects);
  batch ← queueUpdates (collectionName this) saveObjects [];
  commit batch ;;
  mret (zip_with (fun po o => (po.1, o.2)) partialObjects saveObjects).

End Updates.

(** [deleteSingle(id)] *)
Definition deleteSingle (this : Collection) (id : string) : M unit :=
  docRef ← doc (collectionName this) (VStr id);
  docDelete docRef.

(** ** Reading a collection *)

Section GetCollection.

Context {TField : Type} `{!Truthy TField} `{queryChecks : !QueryChecks TField}.

(** [(await ref.get()).docs]: the store's answer to a query, each document
    with its id and its data, or the store's error. Evaluating a query is the
    store's business; the accessor is modelled for any store. *)
Variable queryGet :
  Query TField → gmap DocumentReference DocumentData →
  Result (list (string * DocumentData)).

(** [ref.get()] *)
Definition refGet (ref : Query TField) : M (list (string * DocumentData)) :=
  fun db => (queryGet ref (documents db), db).

(** [getCollectionFromDB(collectionName, options)] *)
Definition getCollectionFromDB (collectionName : string)
    (options : option (QueryOptions.t TField))
  : M (list (string * DocumentData)) :=
  ref ← assembleQuery collectionName options;
  refGet ref.

(** The body of the [forEach] callback of [getCollection]. *)
Definition withId (doc : string * DocumentData) : Js.object :=
  set (literal doc.2) "id" (VStr doc.1).

(** [getCollection(options)] *)
Definition getCollection (this : Collection)
    (options : option (QueryOptions.t TField)) : M (list Js.object) :=
  docs ← getCollectionFromDB (collectionName this) options;
  mret (map withId docs).

End GetCollection.

(** ** Well-typed records *)

(** Modelled from the spec: [models/database-object.entity.ts], which
    declares [DatabaseObject], is not among the sources. A record carries an
    optional [id], a string. This is that typing, on an untyped object. *)
Definition idWellTyped (obj : Js.object) : bool :=
  match get obj "id" with
  | VUndefined | VNull | VStr _ => true
  | _ => false
  end.

(** ** The shape resolution as the specification words it *)

(** Two strings that differ at most in the case of their letters. *)
Definition eq_ignoring_case (a b : string) : bool :=
  bool_decide (toLocaleLowerCase a = toLocaleLowerCase b).

(** The specification's reading of the multi-shape resolution: the first
    shape whose name equals the payload's [type], case ignored. It is stated
    here to be compared with [deriveUpdateType]. *)
Definition deriveUpdateType_ignoring_case (this : Collection)
    (partialObject : Js.object) : option Type_ :=
  find (fun t => match get partialObject "type" with
                 | VStr s => eq_ignoring_case (name t) s
                 | _ => false
                 end)
       (types this).

(** ** Sample data *)

Module Sample.

Definition Dog : Type_ :=
  {| name := "Dog";
     blank := literal {[ "type" := VStr "dog"; "name" := VUndefined;
                         "age" := VUndefined ]} |}.

Definition Cat : Type_ :=
  {| name := "Cat";
     blank := literal {[ "type" := VStr "cat"; "name" := VUndefined;
                         "lives" := VUndefined ]} |}.

(** A two-shape accessor, as [new Collection(settings, [Dog, Cat], "pets")]
    builds it. *)
Definition pets : Collection :=
  {| types := [Dog; Cat]; collectionName := "pets"; isSingleType := false |}.

(** A one-shape accessor. *)
Definition dogs : Collection :=
  {| types := [Dog]; collectionName := "dogs"; isSingleType := true |}.

(** [{ type: "Dog", name: "Rex" }] *)
Definition capitalised : Js.object :=
  literal {[ "type" := VStr "Dog"; "name" := VStr "Rex" ]}.

(** [{ type: "dog", name: "Rex", bogus: 1 }] *)
Definition update : Js.object :=
  literal {[ "type" := VStr "dog"; "name" := VStr "Rex"; "bogus" := VNum 1 ]}.

(** [{ id: "rex", name: "Rex" }] *)
Definition rex : Js.object :=
  literal {[ "id" := VStr "rex"; "name" := VStr "Rex" ]}.

Definition empty : Firestore :=
  {| documents := ∅; generated := 0; trace := [] |}.

(** A store in which [dogs/rex] exists. *)
Definition stocked : Firestore :=
  {| documents := {[ ("dogs", "rex") := {[ "name" := VStr "Old Rex" ]} ]};
     generated := 0; trace := [] |}.

(** Generated ids: [auto], [autoa], [autoaa], ... *)
Definition autoId (n : nat) : string := "auto" +:+ String.concat "" (replicate n "a").

(** [{ pagingOptions: { startAfter: "rex", limit: 5 } }] *)
Definition afterRex : QueryOptions.t string :=
  QueryOptions.make None None (Some (PagingOptions.make (Some "rex") 5%Z)).

Definition adults : list (WhereClause.t value) :=
  [WhereClause.make (byName "age") (VNum 18) op_ge;
   WhereClause.make (byName "age") (VNum 65) op_lt].

(** A store that answers every query with all the documents of the queried
    collection. *)
Definition everyDocument (q : Query string)
    (docs : gmap DocumentReference DocumentData)
  : Result (list (string * DocumentData)) :=
  Ok (omap (fun e : DocumentReference * DocumentData =>
              if bool_decide (e.1.1 = collection q) then Some (e.1.2, e.2)
              else None)
           (map_to_list docs)).

(** A store in which [dogs/rex] exists and holds an [id] field of its own. *)
Definition labelled : Firestore :=
  {| documents := {[ ("dogs", "rex") := {[ "id" := VStr "other";
                                           "name" := VStr "Old Rex" ]} ]};
     generated := 0; trace := [] |}.

(** [{ name: "Rex", bogus: 1 }] *)
Definition rename : Js.object :=
  literal {[ "name" := VStr "Rex"; "bogus" := VNum 1 ]}.

(** A client that refuses a document one of whose fields is [undefined]. *)
Definition noUndefined : WriteChecks := fun d =>
  if bool_decide (VUndefined ∈ (map_to_list d).*2)
  then Some (Error "Cannot use undefined as a Firestore value.")
  else None.

(** A client that refuses an [undefined] to compare with, an empty field
    name to order by, and the snapshot of a document that does not exist as
    a cursor. *)
Definition strictValues : QueryChecks value := fun q c =>
  match c with
  | where_ _ _ VUndefined =>
      Some (Error "Cannot use undefined as a Firestore value.")
  | orderBy (byName "") _ => Some (Error "Paths must not be empty.")
  | startAfter (atSnapshot s) =>
      if exists_ s then None
      else Some (Error "The snapshot is of a document that does not exist.")
  | _ => None
  end.

(** The same client, for queries on strings. *)
Definition strictStrings : QueryChecks string := fun q c =>
  match c with
  | orderBy (byName "") _ => Some (Error "Paths must not be empty.")
  | startAfter (atSnapshot s) =>
      if exists_ s then None
      else Some (Error "The snapshot is of a document that does not exist.")
  | _ => None
  end.

(** [{ whereClauses: adults, operator: "or",
        pagingOptions: { startAfter: "rex", limit: 5 } }] *)
Definition adultsAfterRex : WhereOptions.t value :=
  WhereOptions.make adults (Some or_)
    (Some (PagingOptions.make (Some "rex") 5%Z)).

(** [{ id: "tom", name: "Tom" }] *)
Definition tom : Js.object :=
  literal {[ "id" := VStr "tom"; "name" := VStr "Tom" ]}.

End Sample.

(** * Properties *)

(** ** Construction *)

Lemma some_true_iff {A} (p : A → bool) (l : list A) :
  some p l = true ↔ ∃ x, x ∈ l ∧ p x = true.
Proof.
  unfold some. rewrite existsb_exists.
  split; intros (x & Hx & Hp); exists x; split; auto; by apply list_elem_of_In.
Qed.

(** C5. Constructing an accessor throws exactly when no shape is given, or
    when more than one shape is given and the blank instance of one of them
    has no [type] property; with exactly one shape it succeeds, whatever the
    shape's properties are. *)
Theorem constructor_throws_iff (types : list Type_) (collectionName : string) :
  ((∃ message, constructor types collectionName = Throw (Error message))
   ↔ types = []
     ∨ (1 < length types
        ∧ ∃ t, t ∈ types ∧ has_property "type" (blank t) = false))
  ∧ (∀ t, constructor [t] collectionName
          = Ok {| types := [t]; collectionName := collectionName;
                  isSingleType := true |}).
Proof.
  split; [|done].
  unfold constructor, validate; cbn -[some].
  destruct types as [|t0 [|t1 ts]]; cbn [length Nat.ltb Nat.leb Nat.eqb negb andb].
  - split; [by left | eauto].
  - split; [intros [? [=]] | intros [[=] | [Hlen _]]]. cbn in Hlen; lia.
  - destruct (some _ _) eqn:Hsome.
    + apply some_true_iff in Hsome as (t & Ht & Hp).
      split; [intros _; right | eauto].
      split; [cbn; lia |]. exists t. split; [done |].
      by apply negb_true_iff.
    + split; [intros [? [=]] | intros [[=] | [_ (t & Ht & Hp)]]].
      assert (some (λ t, negb (has_property "type" (blank t))) (t0 :: t1 :: ts) = true)
        as Hyes by (apply some_true_iff; exists t; by rewrite Hp).
      congruence.
Qed.

(** ** The update projector *)

Lemma own_has_property (o : Js.object) (prop : string) :
  is_Some (own o !! prop) → has_property prop o = true.
Proof.
  intros H. unfold has_property.
  by rewrite (bool_decide_eq_true_2 _ H).
Qed.

Lemma own_get (o : Js.object) (prop : string) (v : value) :
  own o !! prop = Some v → get o prop = v.
Proof. intros H. unfold get. by rewrite H. Qed.

Lemma elem_of_getOwnPropertyNames (o : Js.object) (prop : string) :
  prop ∈ getOwnPropertyNames o ↔ is_Some (own o !! prop).
Proof.
  unfold getOwnPropertyNames. rewrite list_elem_of_fmap. split.
  - intros ([k v] & -> & Hin). apply elem_of_map_to_list in Hin. eauto.
  - intros [v Hv]. exists (prop, v). split; [done |].
    by apply elem_of_map_to_list.
Qed.

(** What one round of the [forEach] of [assembleUpdateObject] leaves under
    a name. *)
Lemma copyProp_lookup (saveObjectProps : list string)
    (partialObject : Js.object) (saveObject : gmap string value)
    (prop f : string) :
  copyProp saveObjectProps partialObject saveObject prop !! f
  = if decide (f = prop ∧ f ≠ "type" ∧ f ∈ saveObjectProps
               ∧ has_property f partialObject = true)
    then Some (get partialObject f)
    else saveObject !! f.
Proof.
  unfold copyProp, includes.
  destruct (decide (prop = "type")) as [Htype | Htype].
  - rewrite (bool_decide_eq_true_2 _ Htype). cbn [negb andb].
    case_decide as H; [|done]. destruct H as (-> & H & _). done.
  - rewrite (bool_decide_eq_false_2 _ Htype). cbn [negb andb].
    destruct (decide (prop ∈ saveObjectProps)) as [Hin | Hin].
    + rewrite (bool_decide_eq_true_2 _ Hin). cbn [andb].
      destruct (has_property prop partialObject) eqn:Hhas.
      * rewrite lookup_insert.
        destruct (decide (prop = f)) as [-> | Hne].
        -- by rewrite decide_True.
        -- rewrite decide_False; [done |]. intros (-> & _). done.
      * rewrite decide_False; [done |]. intros (-> & _ & _ & H). congruence.
    + rewrite (bool_decide_eq_false_2 _ Hin). cbn [andb].
      rewrite decide_False; [done |]. intros (-> & _ & H & _). done.
Qed.

(** What the whole [forEach] leaves under a name. *)
Lemma foldl_copyProp_lookup (saveObjectProps : list string)
    (partialObject : Js.object) (props : list string)
    (saveObject : gmap string value) (f : string) :
  foldl (copyProp saveObjectProps partialObject) saveObject props !! f
  = if decide (f ∈ props ∧ f ≠ "type" ∧ f ∈ saveObjectProps
               ∧ has_property f partialObject = true)
    then Some (get partialObject f)
    else saveObject !! f.
Proof.
  revert saveObject.
  induction props as [|p props IH]; intros saveObject; cbn [foldl].
  - rewrite decide_False; [done |]. intros [H _]. by apply elem_of_nil in H.
  - rewrite IH, copyProp_lookup.
    destruct (decide (f ∈ props ∧ _)) as [(Hin & H) | Hno].
    + rewrite decide_True; [done |]. split; [by apply elem_of_cons; right | done].
    + destruct (decide (f = p ∧ _)) as [(-> & H) | Hno'].
      * rewrite decide_True; [done |]. split; [by apply elem_of_cons; left | done].
      * rewrite decide_False; [done |]. intros (Hin & H).
        apply elem_of_cons in Hin as [-> | Hin]; [by apply Hno' | by apply Hno].
Qed.

(** C4. Once the shape is resolved, projection succeeds, and the projected
    object has a field exactly when the field is not [type], is an own
    property name of the shape's blank instance and is an own property of the
    payload; it then carries the payload's value. Every other payload field
    is left out, without an error. *)
Theorem assembleUpdateObject_keeps_iff (this : Collection)
    (partialObject : Js.object) (updateType : Type_) :
  deriveUpdateType this partialObject = Some updateType →
  ∃ saveObject,
    assembleUpdateObject this partialObject = Ok saveObject
    ∧ ∀ f,
        (is_Some (saveObject !! f)
         ↔ f ≠ "type"
           ∧ f ∈ getOwnPropertyNames (blank updateType)
           ∧ is_Some (own partialObject !! f))
        ∧ (∀ v, saveObject !! f = Some v → own partialObject !! f = Some v).
Proof.
  intros Hshape. unfold assembleUpdateObject. rewrite Hshape.
  eexists. split; [done |]. intros f.
  rewrite foldl_copyProp_lookup, lookup_empty.
  destruct (decide _) as [(Hin & Htype & Hshapeprop & Hhas) | Hno].
  - apply elem_of_getOwnPropertyNames in Hin as [v Hv].
    rewrite (own_get _ _ _ Hv). split.
    + split; [intros _; eauto | eauto].
    + by intros v' [= <-].
  - split; [|by intros v [=]].
    split; [by intros [v [=]] |].
    intros (Htype & Hshapeprop & Hown). exfalso. apply Hno.
    repeat split; try done.
    + by apply elem_of_getOwnPropertyNames.
    + by apply own_has_property.
Qed.

(** *** Resolving the shape *)

Lemma find_none_iff {A} (p : A → bool) (l : list A) :
  find p l = None ↔ ∀ x, x ∈ l → p x = false.
Proof.
  induction l as [|x l IH]; cbn [find].
  - split; [|done]. intros _ x Hx. by apply elem_of_nil in Hx.
  - destruct (p x) eqn:Hpx.
    + split; [done |]. intros H. specialize (H x (list_elem_of_here _ _)). congruence.
    + rewrite IH. split.
      * intros H y Hy. apply elem_of_cons in Hy as [-> | Hy]; auto.
      * intros H y Hy. apply H. by apply elem_of_cons; right.
Qed.

Lemma find_ext {A} (p q : A → bool) (l : list A) :
  (∀ x, p x = q x) → find p l = find q l.
Proof.
  intros Hpq. induction l as [|x l IH]; cbn [find]; [done |].
  by rewrite Hpq, IH.
Qed.

Lemma lower_ascii_idemp (c : ascii) : lower_ascii (lower_ascii c) = lower_ascii c.
Proof. destruct c as [[] [] [] [] [] [] [] []]; reflexivity. Qed.

Lemma toLocaleLowerCase_idemp (s : string) :
  toLocaleLowerCase (toLocaleLowerCase s) = toLocaleLowerCase s.
Proof.
  induction s as [|c s IH]; cbn [toLocaleLowerCase]; [done |].
  by rewrite lower_ascii_idemp, IH.
Qed.

(** A property that reads as a string is a property the object has. *)
Lemma get_string_has_property (o : Js.object) (prop s : string) :
  get o prop = VStr s → has_property prop o = true.
Proof.
  unfold get, has_property. intros H.
  destruct (own o !! prop) as [v|] eqn:Hown.
  - by rewrite bool_decide_eq_true_2.
  - destruct (inherited o !! prop) as [v|] eqn:Hinh; [|done].
    rewrite (bool_decide_eq_true_2 (is_Some (Some v))); [|eauto].
    by rewrite orb_true_r.
Qed.

(** The test [find] runs on each shape in multi-shape mode. *)
Lemma multi_type_test (partialObject : Js.object) (t : Type_) :
  has_property "type" partialObject
  && strict_eq_string (toLocaleLowerCase (name t)) (get partialObject "type")
  = bool_decide (get partialObject "type" = VStr (toLocaleLowerCase (name t))).
Proof.
  unfold strict_eq_string.
  destruct (get partialObject "type") as [| |b|n|s|a] eqn:Hget;
    try (rewrite andb_false_r; symmetry; by apply bool_decide_eq_false_2).
  rewrite (get_string_has_property _ _ _ Hget). cbn [andb].
  apply bool_decide_ext. split; [by intros -> | by intros [= ->]].
Qed.

(** C2, as amended. In multi-shape mode the projector resolves the first
    shape whose lower-cased name is strictly equal to the payload's [type],
    the payload's [type] being taken as it is; projection throws exactly when
    no shape is so matched, and so in particular when no shape matches the
    payload's [type] with case ignored. *)
Theorem deriveUpdateType_multi (this : Collection) (partialObject : Js.object) :
  isSingleType this = false →
  deriveUpdateType this partialObject
  = find (fun t => bool_decide (get partialObject "type"
                                = VStr (toLocaleLowerCase (name t))))
         (types this)
  ∧ (assembleUpdateObject this partialObject
     = Throw (Error "Could not derive updateType from partialObject.")
     ↔ ∀ t, t ∈ types this →
            get partialObject "type" ≠ VStr (toLocaleLowerCase (name t)))
  ∧ (deriveUpdateType_ignoring_case this partialObject = None →
     assembleUpdateObject this partialObject
     = Throw (Error "Could not derive updateType from partialObject.")).
Proof.
  intros Hmulti.
  assert (deriveUpdateType this partialObject
          = find (fun t => bool_decide (get partialObject "type"
                                        = VStr (toLocaleLowerCase (name t))))
                 (types this)) as Hderive.
  { unfold deriveUpdateType. rewrite Hmulti.
    apply find_ext. intros t. apply multi_type_test. }
  assert (assembleUpdateObject this partialObject
          = Throw (Error "Could not derive updateType from partialObject.")
          ↔ ∀ t, t ∈ types this →
                 get partialObject "type" ≠ VStr (toLocaleLowerCase (name t)))
    as Hthrows.
  { unfold assembleUpdateObject. rewrite Hderive.
    destruct (find _ _) as [t|] eqn:Hfind.
    - split; [done |]. intros Hnone.
      assert (find (fun t => bool_decide (get partialObject "type"
                               = VStr (toLocaleLowerCase (name t))))
                   (types this) = None) as Habs; [|congruence].
      apply find_none_iff. intros x Hx. apply bool_decide_eq_false_2. auto.
    - split; [intros _ | done].
      intros t Ht. rewrite find_none_iff in Hfind.
      specialize (Hfind t Ht). by apply bool_decide_eq_false_1 in Hfind. }
  split; [done |]. split; [done |].
  intros Hnone. apply Hthrows. intros t Ht Hget.
  unfold deriveUpdateType_ignoring_case in Hnone.
  rewrite find_none_iff in Hnone. specialize (Hnone t Ht).
  rewrite Hget in Hnone. unfold eq_ignoring_case in Hnone.
  apply bool_decide_eq_false_1 in Hnone. apply Hnone.
  by rewrite toLocaleLowerCase_idemp.
Qed.

(** C2, as stated, fails: the payload [{ type: "Dog", name: "Rex" }] names
    the shape [Dog] when case is ignored, and yet no shape is resolved for
    it and projection throws. *)
Lemma capitalised_type_not_resolved :
  isSingleType Sample.pets = false
  ∧ deriveUpdateType_ignoring_case Sample.pets Sample.capitalised = Some Sample.Dog
  ∧ deriveUpdateType Sample.pets Sample.capitalised
    ≠ deriveUpdateType_ignoring_case Sample.pets Sample.capitalised
  ∧ assembleUpdateObject Sample.pets Sample.capitalised
    = Throw (Error "Could not derive updateType from partialObject.").
Proof. repeat split; vm_compute; congruence. Qed.

Example update_resolves_Dog :
  deriveUpdateType Sample.pets Sample.update = Some Sample.Dog.
Proof. vm_compute. reflexivity. Qed.

Example update_projected :
  assembleUpdateObject Sample.pets Sample.update = Ok {[ "name" := VStr "Rex" ]}.
Proof. vm_compute. reflexivity. Qed.

(** ** Query assembly *)

Section AssembleQueryFacts.

Context {TField : Type} `{!Truthy TField} `{queryChecks : !QueryChecks TField}.

(** C3. When both [whereOptions] and [orderOptions] are set, assembly
    throws, whatever the options hold otherwise, and nothing is read. *)
Theorem assembleQuery_where_and_order (collectionName : string)
    (whereOptions : WhereOptions.t TField)
    (orderOptions : OrderOptions.t TField)
    (pagingOptions : option (PagingOptions.t TField)) (db : Firestore) :
  assembleQuery collectionName
    (Some (QueryOptions.make (Some whereOptions) (Some orderOptions) pagingOptions)) db
  = (Throw (Error "Can't use WhereOptions and OrderOptions in the same query."), db).
Proof. reflexivity. Qed.

(** C9. For the empty options object the query is ordered by document id,
    ascending, and limited to 10; nothing is read. *)
Theorem assembleQuery_default (collectionName : string) (db : Firestore) :
  assembleQuery (TField := TField) collectionName
    (Some (QueryOptions.make None None None)) db
  = (Ok (mkQuery collectionName
           [orderBy (byPath documentId) (Some asc); limit 10%Z]), db).
Proof. reflexivity. Qed.

(** A call that is made extends the query by itself. *)
Lemma call_Ok (ref q : Query TField) (c : QueryCall TField) :
  call ref c = Ok q → q = mkQuery (collection ref) (calls ref ++ [c]).
Proof.
  unfold call. destruct c as [| |[|[|]]| |]; try destruct (refusedCall _ _);
    by intros [= <-].
Qed.

Lemma callAll_one (ref : Query TField) (c : QueryCall TField) :
  callAll ref [c] = call ref c.
Proof. unfold callAll. cbn. by destruct (call ref c). Qed.

Lemma callAll_app (ref : Query TField) (cs cs' : list (QueryCall TField)) :
  callAll ref (cs ++ cs') = (ref' ← callAll ref cs; callAll ref' cs').
Proof.
  unfold callAll. revert ref.
  induction cs as [|c cs IH]; intros ref; cbn; [done |].
  destruct (call ref c) as [ref'|e]; cbn; [apply IH | done].
Qed.

(** Calls that are all made extend the query by themselves, in order. *)
Lemma callAll_Ok (ref q : Query TField) (cs : list (QueryCall TField)) :
  callAll ref cs = Ok q → q = mkQuery (collection ref) (calls ref ++ cs).
Proof.
  unfold callAll. revert ref.
  induction cs as [|c cs IH]; intros ref; cbn.
  - intros [= <-]. rewrite app_nil_r. by destruct ref.
  - destruct (call ref c) as [ref'|e] eqn:Hcall; cbn; [|done].
    intros Hrest. apply IH in Hrest as ->. apply call_Ok in Hcall as ->.
    cbn. by rewrite <- app_assoc.
Qed.

(** The [forEach] over the where-clauses is one call per clause. *)
Lemma foldlR_call {A} (f : A → QueryCall TField) (l : list A) (ref : Query TField) :
  foldlR (fun ref x => call ref (f x)) ref l = callAll ref (map f l).
Proof.
  unfold callAll. revert ref.
  induction l as [|x l IH]; intros ref; cbn; [done |].
  destruct (call ref (f x)); cbn; [apply IH | done].
Qed.

(** C1, as amended. For options that hold bare [pagingOptions] only, with
    a truthy [startAfter], the query is ordered by document id and the value
    of [startAfter] is handed as it is to the client's [startAfter], as the
    cursor of that ordering: it is the client that takes it for a document
    id; no snapshot is resolved and no document is read. When the client
    takes the value, the limit is applied next; when it refuses it, its
    error is thrown and no limit is applied. *)
Theorem assembleQuery_bare_paging (collectionName : string)
    (pagingOptions : PagingOptions.t TField) (v : TField) (db : Firestore) :
  PagingOptions.startAfter pagingOptions = Some v →
  truthy v = true →
  assembleQuery collectionName
    (Some (QueryOptions.make None None (Some pagingOptions))) db
  = (match refusedCall (mkQuery collectionName [orderBy (byPath documentId) None])
             (startAfter (atValue v)) with
     | Some e => Throw e
     | None =>
         Ok (mkQuery collectionName
               [orderBy (byPath documentId) None;
                startAfter (atValue v);
                limit (PagingOptions.limit pagingOptions)])
     end, db).
Proof.
  intros Hstart Htruthy. unfold assembleQuery. cbn.
  rewrite Hstart, Htruthy. unfold liftResult, call. cbn.
  by destruct (refusedCall _ _).
Qed.

Lemma getDocumentSnapshot_run (collectionName id : string) (db : Firestore) :
  truthy id = true →
  getDocumentSnapshot collectionName id db
  = (Ok {| ref := (collectionName, id);
           data := documents db !! (collectionName, id) |},
     {| documents := documents db; generated := generated db;
        trace := trace db ++ [DocRead (collectionName, id)] |}).
Proof.
  intros Hid. unfold getDocumentSnapshot, doc. rewrite Hid. reflexivity.
Qed.

(** The [whereOptions] branch, once its [pagingOptions] are found: the
    cursor document is read if there is a cursor, then the calls are made. *)
Lemma assembleQuery_where_run (collectionName : string)
    (whereOptions : WhereOptions.t TField)
    (pagingOptions : PagingOptions.t string)
    (bare : option (PagingOptions.t TField)) (db : Firestore) :
  WhereOptions.pagingOptions whereOptions = Some pagingOptions →
  let filters :=
    match WhereOptions.operator whereOptions with
    | Some or_ =>
        [whereFilter
           (Filter_or
              (map (fun wc => Filter_where (WhereClause.field wc)
                                (WhereClause.operation wc)
                                (WhereClause.value wc))
                   (WhereOptions.whereClauses whereOptions)))]
    | _ =>
        map (fun wc => where_ (WhereClause.field wc)
                         (WhereClause.operation wc)
                         (WhereClause.value wc))
            (WhereOptions.whereClauses whereOptions)
    end in
  assembleQuery collectionName
    (Some (QueryOptions.make (Some whereOptions) None bare)) db
  = match PagingOptions.startAfter pagingOptions with
    | Some id =>
        if truthy id
        then (callAll (mkQuery collectionName [])
                (filters
                 ++ [startAfter
                       (atSnapshot
                          {| ref := (collectionName, id);
                             data := documents db !! (collectionName, id) |})]
                 ++ [limit (PagingOptions.limit pagingOptions)]),
              {| documents := documents db; generated := generated db;
                 trace := trace db ++ [DocRead (collectionName, id)] |})
        else (callAll (mkQuery collectionName [])
                (filters ++ [] ++ [limit (PagingOptions.limit pagingOptions)]),
              db)
    | None =>
        (callAll (mkQuery collectionName [])
           (filters ++ [] ++ [limit (PagingOptions.limit pagingOptions)]),
         db)
    end.
Proof.
  intros Hpaging filters.
  assert (∀ last : option DocumentSnapshot,
            (ref ← match WhereOptions.operator whereOptions with
                   | Some or_ =>
                       call (mkQuery collectionName [])
                         (whereFilter
                            (Filter_or
                               (map (fun wc => Filter_where (WhereClause.field wc)
                                                 (WhereClause.operation wc)
                                                 (WhereClause.value wc))
                                    (WhereOptions.whereClauses whereOptions))))
                   | _ =>
                       foldlR (fun ref wc =>
                                 call ref (where_ (WhereClause.field wc)
                                             (WhereClause.operation wc)
                                             (WhereClause.value wc)))
                              (mkQuery collectionName [])
                              (WhereOptions.whereClauses whereOptions)
                   end;
             ref ← match last with
                   | Some snapshot => call ref (startAfter (atSnapshot snapshot))
                   | None => Ok ref
                   end;
             call ref (limit (PagingOptions.limit pagingOptions)))
            = callAll (mkQuery collectionName [])
                (filters
                 ++ match last with
                    | Some snapshot => [startAfter (atSnapshot snapshot)]
                    | None => []
                    end
                 ++ [limit (PagingOptions.limit pagingOptions)])) as Hcalls.
  { intros last. rewrite callAll_app. subst filters.
    assert (∀ r : Result (Query TField),
              (ref ← r;
               ref ← match last with
                     | Some snapshot => call ref (startAfter (atSnapshot snapshot))
                     | None => Ok ref
                     end;
               call ref (limit (PagingOptions.limit pagingOptions)))
              = (ref' ← r;
                 callAll ref'
                   (match last with
                    | Some snapshot => [startAfter (atSnapshot snapshot)]
                    | None => []
                    end ++ [limit (PagingOptions.limit pagingOptions)]))) as Hrest.
    { intros [ref|e]; [|done]. unfold callAll. cbn.
      destruct last as [snapshot|]; cbn; [|done].
      by destruct (refusedCall _ _). }
    destruct (WhereOptions.operator whereOptions) as [[|]|];
      rewrite ?foldlR_call, ?callAll_one; apply Hrest. }
  unfold assembleQuery.
  cbn [mbind option_bind QueryOptions.whereOptions QueryOptions.orderOptions
       present andb].
  rewrite Hpaging.
  destruct (PagingOptions.startAfter pagingOptions) as [id|].
  - destruct (truthy id) eqn:Hid.
    + unfold mbind at 1, M_bind, fmap, M_fmap.
      rewrite (getDocumentSnapshot_run _ _ _ Hid).
      unfold liftResult. f_equal. apply (Hcalls (Some _)).
    + unfold mbind at 1, M_bind, mret, M_ret, liftResult. f_equal.
      apply (Hcalls None).
  - unfold mbind at 1, M_bind, mret, M_ret, liftResult. f_equal.
    apply (Hcalls None).
Qed.

(** C6. With [whereOptions] (and no [orderOptions]), the calls made on the
    collection are, in this order: under the operator ["or"], one [where] on
    the OR of all the clauses' filters, in list order; under ["and"] or no
    operator, one [where] per clause, in list order; then [startAfter] on the
    snapshot read, if there is a cursor; then the limit. The first call the
    client refuses throws its error, and a query that is returned is made of
    exactly these calls. *)
Theorem assembleQuery_where_clauses (collectionName : string)
    (whereOptions : WhereOptions.t TField)
    (pagingOptions : PagingOptions.t string)
    (bare : option (PagingOptions.t TField)) (db : Firestore) :
  WhereOptions.pagingOptions whereOptions = Some pagingOptions →
  ∃ (db' : Firestore) (cursor : list (QueryCall TField)),
    Forall (fun c => ∃ snapshot, c = startAfter (atSnapshot snapshot)) cursor
    ∧ (WhereOptions.operator whereOptions = Some or_ →
       assembleQuery collectionName
         (Some (QueryOptions.make (Some whereOptions) None bare)) db
       = (callAll (mkQuery collectionName [])
            ([whereFilter
                (Filter_or
                   (map (fun wc => Filter_where (WhereClause.field wc)
                                     (WhereClause.operation wc)
                                     (WhereClause.value wc))
                        (WhereOptions.whereClauses whereOptions)))]
             ++ cursor ++ [limit (PagingOptions.limit pagingOptions)]), db'))
    ∧ (WhereOptions.operator whereOptions = None
       ∨ WhereOptions.operator whereOptions = Some and_ →
       assembleQuery collectionName
         (Some (QueryOptions.make (Some whereOptions) None bare)) db
       = (callAll (mkQuery collectionName [])
            (map (fun wc => where_ (WhereClause.field wc)
                              (WhereClause.operation wc)
                              (WhereClause.value wc))
                 (WhereOptions.whereClauses whereOptions)
             ++ cursor ++ [limit (PagingOptions.limit pagingOptions)]), db'))
    ∧ (∀ q,
         (assembleQuery collectionName
            (Some (QueryOptions.make (Some whereOptions) None bare)) db).1 = Ok q →
         collection q = collectionName
         ∧ calls q
           = match WhereOptions.operator whereOptions with
             | Some or_ =>
                 [whereFilter
                    (Filter_or
                       (map (fun wc => Filter_where (WhereClause.field wc)
                                         (WhereClause.operation wc)
                                         (WhereClause.value wc))
                            (WhereOptions.whereClauses whereOptions)))]
             | _ =>
                 map (fun wc => where_ (WhereClause.field wc)
                                  (WhereClause.operation wc)
                                  (WhereClause.value wc))
                     (WhereOptions.whereClauses whereOptions)
             end
             ++ cursor ++ [limit (PagingOptions.limit pagingOptions)]).
Proof.
  intros Hpaging.
  pose proof (assembleQuery_where_run collectionName whereOptions pagingOptions
                bare db Hpaging) as Hrun.
  cbv zeta in Hrun.
  assert (∃ db' cursor,
            Forall (fun c : QueryCall TField =>
                      ∃ snapshot, c = startAfter (atSnapshot snapshot)) cursor
            ∧ assembleQuery collectionName
                (Some (QueryOptions.make (Some whereOptions) None bare)) db
              = (callAll (mkQuery collectionName [])
                   (match WhereOptions.operator whereOptions with
                    | Some or_ =>
                        [whereFilter
                           (Filter_or
                              (map (fun wc => Filter_where (WhereClause.field wc)
                                                (WhereClause.operation wc)
                                                (WhereClause.value wc))
                                   (WhereOptions.whereClauses whereOptions)))]
                    | _ =>
                        map (fun wc => where_ (WhereClause.field wc)
                                         (WhereClause.operation wc)
                                         (WhereClause.value wc))
                            (WhereOptions.whereClauses whereOptions)
                    end
                    ++ cursor ++ [limit (PagingOptions.limit pagingOptions)]), db'))
    as (db' & cursor & Hcursor & Heq).
  { destruct (PagingOptions.startAfter pagingOptions) as [id|];
      [destruct (truthy id) |].
    - eexists _, [_]. split; [|exact Hrun]. apply Forall_singleton. eauto.
    - by eexists _, [].
    - by eexists _, []. }
  exists db', cursor. split; [done |]. split; [|split].
  - intros Hor. by rewrite Hor in Heq.
  - intros [Hand | Hand]; by rewrite Hand in Heq.
  - intros q Hq. rewrite Heq in Hq. cbn [fst] in Hq.
    apply callAll_Ok in Hq as ->. by cbn.
Qed.

End AssembleQueryFacts.
(** ** Creating documents *)

Lemma truthy_string (s : string) : truthy s = true ↔ s ≠ "".
Proof. destruct s; cbn; split; congruence. Qed.

Section Create.

Context `{writeChecks : !WriteChecks}.

Variable autoId : nat → string.

(** What the client does with data it takes. *)
Lemma validateData_accepted (d : DocumentData) (db : Firestore) :
  accepted d = true → validateData d db = (Ok tt, db).
Proof.
  unfold accepted, validateData. intros Hd.
  apply bool_decide_eq_true_1 in Hd. by rewrite Hd.
Qed.

(** C7. [addSingle] with [hasID] set, for an object whose [id] names a
    document that exists, throws the conflict error; the documents are
    left as they were, and the only thing asked of the store is the read
    of that document. *)
Theorem addSingle_existing_id (this : Collection) (object : Js.object)
    (id : string) (existing : DocumentData) (db : Firestore) :
  get object "id" = VStr id →
  id ≠ "" →
  documents db !! (collectionName this, id) = Some existing →
  ∃ db',
    addSingle autoId this object true db
    = (Throw (Error "Document with this ID already exists."), db')
    ∧ documents db' = documents db
    ∧ trace db' = trace db ++ [DocRead (collectionName this, id)].
Proof.
  intros Hid Hne Hexisting. apply truthy_string in Hne.
  unfold addSingle. rewrite Hid.
  change (truthy (VStr id)) with (truthy id). rewrite Hne. cbn [negb].
  unfold doc. rewrite Hne.
  unfold mbind, M_bind, mret, M_ret, docGet, exists_. cbn [data].
  rewrite Hexisting.
  rewrite bool_decide_eq_true_2 by eauto.
  eexists. split; [reflexivity |]. done.
Qed.

(** What [close] does with the queued writes. *)
Lemma close_run (writer : BulkWriter) (db : Firestore) :
  close writer db
  = (Ok tt,
     {| documents := foldl (fun m w => <[w.1 := w.2]> m) (documents db) writer;
        generated := generated db;
        trace := trace db ++ map (fun w => DocWrite w.1 w.2) writer |}).
Proof.
  unfold close. revert db.
  induction writer as [|w writer IH]; intros db; cbn [forEach foldl map].
  - rewrite app_nil_r. by destruct db.
  - unfold mbind, M_bind, store. rewrite IH.
    cbn [documents generated trace]. by rewrite <- app_assoc.
Qed.

(** What the [forEach] of [addMany] queues, for well-typed records: one
    write per record, in order, of the record spread whole, under the
    record's [id] when it is set. *)
Lemma queueAll_run (collectionName : string) (objects : list Js.object)
    (writer : BulkWriter) (db : Firestore) :
  forallb idWellTyped objects = true →
  forallb (fun obj => accepted (spread obj)) objects = true →
  ∃ (refs : list DocumentReference) (generated' : nat),
    length refs = length objects
    ∧ (∀ i obj id, objects !! i = Some obj → get obj "id" = VStr id →
                   id ≠ "" → refs !! i = Some (collectionName, id))
    ∧ queueAll autoId collectionName objects writer db
      = (Ok (writer ++ zip refs (map spread objects)),
         {| documents := documents db; generated := generated';
            trace := trace db |}).
Proof.
  revert writer db.
  induction objects as [|obj objects IH]; intros writer db Htyped Htaken.
  - exists [], (generated db). split; [done |]. split; [done |].
    cbn. rewrite app_nil_r. by destruct db.
  - cbn [forallb] in Htyped. apply andb_true_iff in Htyped as [Hobj Htyped].
    cbn [forallb] in Htaken. apply andb_true_iff in Htaken as [Hdata Htaken].
    cbn [queueAll].
    assert (∃ r db1,
               (if truthy (get obj "id")
                then doc collectionName (get obj "id")
                else docAuto autoId collectionName) db = (Ok r, db1)
               ∧ documents db1 = documents db ∧ trace db1 = trace db
               ∧ ∀ id, get obj "id" = VStr id → id ≠ "" → r = (collectionName, id))
      as (r & db1 & Hr & Hdocs & Htrace & Hset).
    { unfold idWellTyped in Hobj.
      destruct (get obj "id") as [| |b|n|s|a] eqn:Hget; try discriminate Hobj.
      - eexists _, _. split; [reflexivity |]. done.
      - eexists _, _. split; [reflexivity |]. done.
      - change (truthy (VStr s)) with (truthy s).
        destruct (truthy s) eqn:Hs.
        + unfold doc. rewrite Hs. eexists _, _. split; [reflexivity |].
          repeat split. by intros id [= ->].
        + eexists _, _. split; [reflexivity |]. repeat split.
          intros id [= ->] Hne. apply truthy_string in Hne. congruence. }
    unfold mbind at 1, M_bind at 1. rewrite Hr.
    unfold mbind at 1, M_bind at 1. rewrite (validateData_accepted _ _ Hdata).
    destruct (IH (writer ++ [(r, spread obj)]) db1 Htyped Htaken)
      as (refs & generated' & Hlen & Hids & Hrun).
    exists (r :: refs), generated'. split; [cbn; by rewrite Hlen |]. split.
    + intros [|i] obj' id Hlookup Hget Hne; cbn in Hlookup |- *.
      * injection Hlookup as <-. f_equal. by apply Hset.
      * eauto.
    + rewrite Hrun, Hdocs, Htrace. cbn [map zip zip_with].
      by rewrite <- app_assoc.
Qed.

(** [addMany] with at most 500 well-typed records. *)
Lemma addMany_run (this : Collection) (objects : list Js.object) (db : Firestore) :
  (length objects ≤ 500)%nat →
  forallb idWellTyped objects = true →
  forallb (fun obj => accepted (spread obj)) objects = true →
  ∃ (refs : list DocumentReference) (db' : Firestore),
    length refs = length objects
    ∧ (∀ i obj id, objects !! i = Some obj → get obj "id" = VStr id →
                   id ≠ "" → refs !! i = Some (collectionName this, id))
    ∧ addMany autoId this objects db = (Ok tt, db')
    ∧ documents db'
      = foldl (fun m w => <[w.1 := w.2]> m) (documents db)
              (zip refs (map spread objects))
    ∧ trace db' = trace db ++ zip_with DocWrite refs (map spread objects).
Proof.
  intros Hlen Htyped Htaken. unfold addMany.
  destruct (500 <? length objects)%nat eqn:Hguard;
    [apply Nat.ltb_lt in Hguard; lia |].
  destruct (queueAll_run (collectionName this) objects [] db Htyped Htaken)
    as (refs & generated' & Hrefs & Hids & Hrun).
  unfold mbind, M_bind. rewrite Hrun, close_run. cbn [app documents trace generated].
  eexists refs, _. repeat split; try done.
  cbn [trace]. f_equal.
  clear. generalize (map spread objects) as ds.
  induction refs as [|r refs IH]; intros [|d ds]; cbn; [done.. |].
  by rewrite IH.
Qed.

(** C8. [addMany] accepts exactly 500 records (well-typed, and whose data
    the client takes) and hands one write per record to the store; given
    more than 500 it throws the batch-size error and the store is
    untouched. *)
Theorem addMany_ceiling (this : Collection) (objects : list Js.object)
    (db : Firestore) :
  (length objects = 500%nat →
   forallb idWellTyped objects = true →
   forallb (fun obj => accepted (spread obj)) objects = true →
   ∃ (refs : list DocumentReference) (db' : Firestore),
     addMany autoId this objects db = (Ok tt, db')
     ∧ length refs = 500%nat
     ∧ trace db' = trace db ++ zip_with DocWrite refs (map spread objects))
  ∧ ((500 < length objects)%nat →
     addMany autoId this objects db
     = (Throw (Error "cannot add more than 500 objects at once"), db)).
Proof.
  split.
  - intros Hlen Htyped Htaken.
    destruct (addMany_run this objects db) as (refs & db' & Hrefs & _ & Hrun & _ & Htrace);
      [lia | done | done |].
    exists refs, db'. repeat split; [done | congruence | done].
  - intros Hlen. unfold addMany.
    apply Nat.ltb_lt in Hlen. by rewrite Hlen.
Qed.

(** [addSingle] with [hasID] set, for an [id] that is a non-empty string:
    the document is read; if there is none, the client validates the data
    and writes it. *)
Lemma addSingle_hasID_run (this : Collection) (object : Js.object)
    (id : string) (db : Firestore) :
  get object "id" = VStr id →
  id ≠ "" →
  addSingle autoId this object true db
  = match documents db !! (collectionName this, id) with
    | Some _ =>
        (Throw (Error "Document with this ID already exists."),
         {| documents := documents db; generated := generated db;
            trace := trace db ++ [DocRead (collectionName this, id)] |})
    | None =>
        match refusedData (delete "id" (own object)) with
        | Some e =>
            (Throw e,
             {| documents := documents db; generated := generated db;
                trace := trace db ++ [DocRead (collectionName this, id)] |})
        | None =>
            (Ok object,
             {| documents := <[(collectionName this, id)
                                := delete "id" (own object)]> (documents db);
                generated := generated db;
                trace := trace db
                         ++ [DocRead (collectionName this, id);
                             DocWrite (collectionName this, id)
                               (delete "id" (own object))] |})
        end
    end.
Proof.
  intros Hget Hid. apply truthy_string in Hid.
  unfold addSingle. rewrite Hget.
  change (truthy (VStr id)) with (truthy id). rewrite Hid. cbn [negb].
  unfold doc. rewrite Hid.
  unfold mbind, M_bind, mret, M_ret, docGet, exists_, docSet, validateData,
    store, throw, rest_without.
  cbn [data documents generated trace].
  destruct (documents db !! (collectionName this, id)) as [old|].
  - by rewrite bool_decide_eq_true_2 by eauto.
  - rewrite bool_decide_eq_false_2 by (by intros [? [=]]).
    unfold mbind, M_bind.
    destruct (refusedData (delete "id" (own object))); [done |].
    unfold mret, M_ret. cbn [documents generated trace].
    by rewrite <- app_assoc.
Qed.




End Create.

(** ** The theorems on the sample data *)

Section ClaimsOnSamples.

#[local] Existing Instance Sample.noUndefined.
#[local] Existing Instance Sample.strictValues.
#[local] Existing Instance Sample.strictStrings.

(** C1, as stated, fails: [{ pagingOptions: { startAfter: "rex", limit: 5 } }]
    is assembled without reading [dogs/rex], and no snapshot is passed as
    the cursor. *)
Lemma bare_paging_reads_nothing :
  ¬ ∃ (q : Query string) (db' : Firestore) (snapshot : DocumentSnapshot),
      assembleQuery "dogs" (Some Sample.afterRex) Sample.stocked = (Ok q, db')
      ∧ DocRead ("dogs", "rex") ∈ trace db'
      ∧ startAfter (atSnapshot snapshot) ∈ calls q.
Proof.
  intros (q & db' & snapshot & Hrun & Hread & _).
  cbv [assembleQuery Sample.afterRex] in Hrun. cbn in Hrun.
  injection Hrun as _ <-.
  cbn in Hread. by apply elem_of_nil in Hread.
Qed.

Lemma assembleQuery_bare_paging_sample :
  assembleQuery "dogs" (Some Sample.afterRex) Sample.stocked
  = (Ok (mkQuery "dogs"
           [orderBy (byPath documentId) None; startAfter (atValue "rex");
            limit 5%Z]),
     Sample.stocked).
Proof.
  exact (assembleQuery_bare_paging "dogs"
           (PagingOptions.make (Some "rex") 5%Z) "rex" Sample.stocked
           eq_refl eq_refl).
Defined.

Lemma deriveUpdateType_multi_sample :
  deriveUpdateType Sample.pets Sample.update
  = find (fun t => bool_decide (get Sample.update "type"
                                = VStr (toLocaleLowerCase (name t))))
         (types Sample.pets)
  ∧ (assembleUpdateObject Sample.pets Sample.update
     = Throw (Error "Could not derive updateType from partialObject.")
     ↔ ∀ t, t ∈ types Sample.pets →
            get Sample.update "type" ≠ VStr (toLocaleLowerCase (name t)))
  ∧ (deriveUpdateType_ignoring_case Sample.pets Sample.update = None →
     assembleUpdateObject Sample.pets Sample.update
     = Throw (Error "Could not derive updateType from partialObject.")).
Proof. apply (deriveUpdateType_multi Sample.pets Sample.update). reflexivity. Defined.

Lemma assembleUpdateObject_keeps_iff_sample :
  ∃ saveObject,
    assembleUpdateObject Sample.pets Sample.update = Ok saveObject
    ∧ ∀ f,
        (is_Some (saveObject !! f)
         ↔ f ≠ "type"
           ∧ f ∈ getOwnPropertyNames (blank Sample.Dog)
           ∧ is_Some (own Sample.update !! f))
        ∧ (∀ v, saveObject !! f = Some v → own Sample.update !! f = Some v).
Proof.
  apply (assembleUpdateObject_keeps_iff Sample.pets Sample.update Sample.Dog).
  vm_compute. reflexivity.
Defined.

Lemma assembleQuery_where_clauses_sample :
  ∃ (db' : Firestore) (cursor : list (QueryCall value)),
    Forall (fun c => ∃ snapshot, c = startAfter (atSnapshot snapshot)) cursor
    ∧ (WhereOptions.operator Sample.adultsAfterRex = Some or_ →
       assembleQuery "dogs"
         (Some (QueryOptions.make (Some Sample.adultsAfterRex) None None))
         Sample.stocked
       = (callAll (mkQuery "dogs" [])
            ([whereFilter
                (Filter_or
                   (map (fun wc => Filter_where (WhereClause.field wc)
                                     (WhereClause.operation wc)
                                     (WhereClause.value wc))
                        (WhereOptions.whereClauses Sample.adultsAfterRex)))]
             ++ cursor ++ [limit 5%Z]), db'))
    ∧ (WhereOptions.operator Sample.adultsAfterRex = None
       ∨ WhereOptions.operator Sample.adultsAfterRex = Some and_ →
       assembleQuery "dogs"
         (Some (QueryOptions.make (Some Sample.adultsAfterRex) None None))
         Sample.stocked
       = (callAll (mkQuery "dogs" [])
            (map (fun wc => where_ (WhereClause.field wc)
                              (WhereClause.operation wc)
                              (WhereClause.value wc))
                 (WhereOptions.whereClauses Sample.adultsAfterRex)
             ++ cursor ++ [limit 5%Z]), db'))
    ∧ (∀ q,
         (assembleQuery "dogs"
            (Some (QueryOptions.make (Some Sample.adultsAfterRex) None None))
            Sample.stocked).1 = Ok q →
         collection q = "dogs"
         ∧ calls q
           = match WhereOptions.operator Sample.adultsAfterRex with
             | Some or_ =>
                 [whereFilter
                    (Filter_or
                       (map (fun wc => Filter_where (WhereClause.field wc)
                                         (WhereClause.operation wc)
                                         (WhereClause.value wc))
                            (WhereOptions.whereClauses Sample.adultsAfterRex)))]
             | _ =>
                 map (fun wc => where_ (WhereClause.field wc)
                                  (WhereClause.operation wc)
                                  (WhereClause.value wc))
                     (WhereOptions.whereClauses Sample.adultsAfterRex)
             end
             ++ cursor ++ [limit 5%Z]).
Proof.
  apply (assembleQuery_where_clauses "dogs" Sample.adultsAfterRex
           (PagingOptions.make (Some "rex") 5%Z) None Sample.stocked).
  reflexivity.
Defined.

Example adults_after_rex :
  (assembleQuery "dogs"
     (Some (QueryOptions.make (Some Sample.adultsAfterRex) None None))
     Sample.stocked).1
  = Ok (mkQuery "dogs"
          [whereFilter
             (Filter_or [Filter_where (byName "age") op_ge (VNum 18);
                         Filter_where (byName "age") op_lt (VNum 65)]);
           startAfter
             (atSnapshot {| ref := ("dogs", "rex");
                            data := Some {[ "name" := VStr "Old Rex" ]} |});
           limit 5%Z]).
Proof. vm_compute. reflexivity. Qed.

Lemma addSingle_existing_id_sample :
  ∃ db',
    addSingle Sample.autoId Sample.dogs Sample.rex true Sample.stocked
    = (Throw (Error "Document with this ID already exists."), db')
    ∧ documents db' = documents Sample.stocked
    ∧ trace db' = trace Sample.stocked ++ [DocRead ("dogs", "rex")].
Proof.
  apply (addSingle_existing_id Sample.autoId Sample.dogs Sample.rex "rex"
           {[ "name" := VStr "Old Rex" ]} Sample.stocked).
  - vm_compute. reflexivity.
  - discriminate.
  - vm_compute. reflexivity.
Defined.

Lemma addMany_ceiling_sample :
  (∃ (refs : list DocumentReference) (db' : Firestore),
     addMany Sample.autoId Sample.dogs (replicate 500 Sample.rex) Sample.empty
     = (Ok tt, db')
     ∧ length refs = 500%nat
     ∧ trace db'
       = trace Sample.empty
         ++ zip_with DocWrite refs (map spread (replicate 500 Sample.rex)))
  ∧ addMany Sample.autoId Sample.dogs (replicate 501 Sample.rex) Sample.empty
    = (Throw (Error "cannot add more than 500 objects at once"), Sample.empty).
Proof.
  split.
  - apply (proj1 (addMany_ceiling Sample.autoId Sample.dogs
                    (replicate 500 Sample.rex) Sample.empty)).
    + vm_compute. reflexivity.
    + vm_compute. reflexivity.
    + vm_compute. reflexivity.
  - apply (proj2 (addMany_ceiling Sample.autoId Sample.dogs
                    (replicate 501 Sample.rex) Sample.empty)).
    rewrite length_replicate. lia.
Defined.


Example addMany_rex :
  trace (addMany Sample.autoId Sample.dogs [Sample.rex] Sample.empty).2
  = [DocWrite ("dogs", "rex") {[ "id" := VStr "rex"; "name" := VStr "Rex" ]}].
Proof. vm_compute. reflexivity. Qed.

Example addSingle_rex :
  trace (addSingle Sample.autoId Sample.dogs Sample.rex false Sample.empty).2
  = [DocWrite ("dogs", "auto") {[ "name" := VStr "Rex" ]}].
Proof. vm_compute. reflexivity. Qed.

(** The client refuses a blank [Dog], whose fields are [undefined]: nothing
    is written. *)
Example addSingle_blank_refused :
  addSingle Sample.autoId Sample.dogs (blank Sample.Dog) false Sample.empty
  = (Throw (Error "Cannot use undefined as a Firestore value."), Sample.empty).
Proof. vm_compute. reflexivity. Qed.

End ClaimsOnSamples.

(** * Further properties *)

(** ** Query assembly: the other branches *)

Section AssembleQueryBranches.

Context {TField : Type} `{!Truthy TField} `{queryChecks : !QueryChecks TField}.

(** X1. [whereOptions] or [orderOptions] without nested [pagingOptions]:
    assembly throws, and nothing is read, whatever [startAfter] or bare
    [pagingOptions] there are. *)
Theorem assembleQuery_paging_required (collectionName : string)
    (whereClauses : list (WhereClause.t TField)) (operator : option Operator)
    (field : string) (direction : OrderByDirection)
    (bare : option (PagingOptions.t TField)) (db : Firestore) :
  assembleQuery collectionName
    (Some (QueryOptions.make
             (Some (WhereOptions.make whereClauses operator None)) None bare)) db
  = (Throw (Error "PagingOptions are required."), db)
  ∧ assembleQuery collectionName
      (Some (QueryOptions.make
               None (Some (OrderOptions.make field direction None)) bare)) db
    = (Throw (Error "PagingOptions are required."), db).
Proof. split; reflexivity. Qed.

(** X2. With [orderOptions], the calls made on the collection are, in this
    order: the ordering on the named field and direction, then [startAfter]
    on the raw [startAfter] value if it is truthy, then the limit. The first
    call the client refuses (an invalid field name, a value it does not take
    as a cursor) throws its error, and a query that is returned is made of
    exactly these calls. No document is read, and bare [pagingOptions] play
    no part. *)
Theorem assembleQuery_order (collectionName field : string)
    (direction : OrderByDirection) (pagingOptions : PagingOptions.t TField)
    (bare : option (PagingOptions.t TField)) (db : Firestore) :
  let made :=
    [orderBy (byName field) (Some direction)]
    ++ match PagingOptions.startAfter pagingOptions with
       | Some v => if truthy v then [startAfter (atValue v)] else []
       | None => []
       end
    ++ [limit (PagingOptions.limit pagingOptions)] in
  assembleQuery collectionName
    (Some (QueryOptions.make None
             (Some (OrderOptions.make field direction (Some pagingOptions)))
             bare)) db
  = (callAll (mkQuery collectionName []) made, db)
  ∧ ∀ q, callAll (mkQuery collectionName []) made = Ok q →
         q = mkQuery collectionName made.
Proof.
  intros made. split.
  - subst made. unfold assembleQuery, liftResult, callAll. cbn.
    destruct (PagingOptions.startAfter pagingOptions) as [v|];
      [destruct (truthy v) |]; cbn;
      repeat (destruct (refusedCall _ _); cbn; try done).
  - intros q Hq. by apply callAll_Ok in Hq as ->.
Qed.

(** X3. Bare [pagingOptions] whose [startAfter] is [null] or falsy: the
    query is the ordering by document id and the limit, with no cursor. *)
Theorem assembleQuery_paging_without_cursor (collectionName : string)
    (pagingOptions : PagingOptions.t TField) (db : Firestore) :
  truthy (PagingOptions.startAfter pagingOptions) = false →
  assembleQuery collectionName
    (Some (QueryOptions.make None None (Some pagingOptions))) db
  = (Ok (mkQuery collectionName
           [orderBy (byPath documentId) None;
            limit (PagingOptions.limit pagingOptions)]), db).
Proof.
  intros Hfalsy. unfold assembleQuery. cbn.
  destruct (PagingOptions.startAfter pagingOptions) as [v|]; [|done].
  cbn in Hfalsy. by rewrite Hfalsy.
Qed.

(** X4. With [whereOptions], the operators ["and"] and unset give the same
    query, and bare [pagingOptions] play no part. *)
Theorem assembleQuery_where_and_is_default (collectionName : string)
    (whereClauses : list (WhereClause.t TField))
    (pagingOptions : option (PagingOptions.t string))
    (orderOptions : option (OrderOptions.t TField))
    (bare : option (PagingOptions.t TField)) (db : Firestore) :
  assembleQuery collectionName
    (Some (QueryOptions.make
             (Some (WhereOptions.make whereClauses (Some and_) pagingOptions))
             orderOptions bare)) db
  = assembleQuery collectionName
      (Some (QueryOptions.make
               (Some (WhereOptions.make whereClauses None pagingOptions))
               orderOptions None)) db.
Proof. by destruct orderOptions. Qed.

(** The filtering calls of the [whereOptions] branch are [where] calls. *)
Lemma where_calls_filter (whereOptions : WhereOptions.t TField) :
  Forall (fun c : QueryCall TField =>
            (∃ field operation v, c = where_ field operation v)
            ∨ (∃ filter, c = whereFilter filter))
         match WhereOptions.operator whereOptions with
         | Some or_ =>
             [whereFilter
                (Filter_or
                   (map (fun wc => Filter_where (WhereClause.field wc)
                                     (WhereClause.operation wc)
                                     (WhereClause.value wc))
                        (WhereOptions.whereClauses whereOptions)))]
         | _ =>
             map (fun wc => where_ (WhereClause.field wc)
                              (WhereClause.operation wc)
                              (WhereClause.value wc))
                 (WhereOptions.whereClauses whereOptions)
         end.
Proof.
  assert (Forall (fun c : QueryCall TField =>
                    (∃ field operation v, c = where_ field operation v)
                    ∨ (∃ filter, c = whereFilter filter))
                 (map (fun wc => where_ (WhereClause.field wc)
                                   (WhereClause.operation wc)
                                   (WhereClause.value wc))
                      (WhereOptions.whereClauses whereOptions))) as Hands.
  { apply Forall_fmap, Forall_forall. intros wc _. left. by eexists _, _, _. }
  destruct (WhereOptions.operator whereOptions) as [[|]|]; try done.
  apply Forall_singleton. right. by eexists.
Qed.

(** X5. With [whereOptions] and a non-empty [startAfter] id, the document
    of that id in the accessor's collection is read once, and the snapshot
    read is handed to [startAfter] whether the document exists or not, after
    all the filters and before the limit. The calls are made after the read:
    the first one the client refuses throws its error, the read done. *)
Theorem assembleQuery_where_cursor (collectionName : string)
    (whereOptions : WhereOptions.t TField)
    (pagingOptions : PagingOptions.t string) (id : string)
    (bare : option (PagingOptions.t TField)) (db : Firestore) :
  WhereOptions.pagingOptions whereOptions = Some pagingOptions →
  PagingOptions.startAfter pagingOptions = Some id →
  id ≠ "" →
  ∃ filters : list (QueryCall TField),
    Forall (fun c => (∃ field operation v, c = where_ field operation v)
                     ∨ (∃ filter, c = whereFilter filter)) filters
    ∧ assembleQuery collectionName
        (Some (QueryOptions.make (Some whereOptions) None bare)) db
      = (callAll (mkQuery collectionName [])
           (filters
            ++ [startAfter
                  (atSnapshot
                     {| ref := (collectionName, id);
                        data := documents db !! (collectionName, id) |});
                limit (PagingOptions.limit pagingOptions)]),
         {| documents := documents db; generated := generated db;
            trace := trace db ++ [DocRead (collectionName, id)] |}).
Proof.
  intros Hpaging Hstart Hid. apply truthy_string in Hid.
  pose proof (assembleQuery_where_run collectionName whereOptions pagingOptions
                bare db Hpaging) as Hrun.
  cbv zeta in Hrun. rewrite Hstart, Hid in Hrun.
  eexists. split; [apply (where_calls_filter whereOptions) |]. exact Hrun.
Qed.

(** X6. With [whereOptions] and a [startAfter] that is [null] or empty,
    nothing is read, and the calls made are the filters and the limit; the
    first one the client refuses throws its error. *)
Theorem assembleQuery_where_no_cursor (collectionName : string)
    (whereOptions : WhereOptions.t TField)
    (pagingOptions : PagingOptions.t string)
    (bare : option (PagingOptions.t TField)) (db : Firestore) :
  WhereOptions.pagingOptions whereOptions = Some pagingOptions →
  truthy (PagingOptions.startAfter pagingOptions) = false →
  ∃ filters : list (QueryCall TField),
    Forall (fun c => (∃ field operation v, c = where_ field operation v)
                     ∨ (∃ filter, c = whereFilter filter)) filters
    ∧ assembleQuery collectionName
        (Some (QueryOptions.make (Some whereOptions) None bare)) db
      = (callAll (mkQuery collectionName [])
           (filters ++ [limit (PagingOptions.limit pagingOptions)]), db).
Proof.
  intros Hpaging Hfalsy.
  pose proof (assembleQuery_where_run collectionName whereOptions pagingOptions
                bare db Hpaging) as Hrun.
  cbv zeta in Hrun.
  eexists. split; [apply (where_calls_filter whereOptions) |].
  rewrite Hrun.
  destruct (PagingOptions.startAfter pagingOptions) as [id|]; [|done].
  cbn in Hfalsy. by rewrite Hfalsy.
Qed.

(** What assembly does to the store and what it returns, for any options. *)
Lemma assembleQuery_frame (collectionName : string)
    (options : option (QueryOptions.t TField)) (db : Firestore) :
  let out := assembleQuery collectionName options db in
  documents out.2 = documents db
  ∧ generated out.2 = generated db
  ∧ (∃ reads, trace out.2 = trace db ++ reads
              ∧ (length reads ≤ 1)%nat
              ∧ ∀ e, e ∈ reads → ∃ id, e = DocRead (collectionName, id))
  ∧ (options ≫= QueryOptions.whereOptions = None → out.2 = db)
  ∧ ∀ q, out.1 = Ok q →
         collection q = collectionName
         ∧ ∃ front n, calls q = front ++ [limit n].
Proof.
  assert (∀ db0 : Firestore, ∃ reads, trace db0 = trace db0 ++ reads
            ∧ (length reads ≤ 1)%nat
            ∧ ∀ e, e ∈ reads → ∃ id, e = DocRead (collectionName, id)) as Hquiet.
  { intros db0. exists []. rewrite app_nil_r. split; [done |]. split; [cbn; lia |].
    intros e He. by apply elem_of_nil in He. }
  assert (∀ (cs : list (QueryCall TField)) n q,
            callAll (mkQuery collectionName []) (cs ++ [limit n]) = Ok q →
            collection q = collectionName
            ∧ ∃ front n, calls q = front ++ [limit n]) as Hlimit.
  { intros cs n q Hq. apply callAll_Ok in Hq as ->. cbn. eauto. }
  destruct options as [[[whereOptions|] [orderOptions|] bare]|]; cbv zeta.
  - cbn. split; [done |]. split; [done |]. split; [by apply Hquiet |].
    split; [done |]. by intros q [=].
  - destruct (WhereOptions.pagingOptions whereOptions) as [pagingOptions|] eqn:Hpaging.
    + rewrite (assembleQuery_where_run collectionName whereOptions pagingOptions
                 bare db Hpaging).
      destruct (PagingOptions.startAfter pagingOptions) as [id|];
        [destruct (truthy id) |]; cbn [fst snd documents generated trace].
      * split; [done |]. split; [done |]. split.
        { exists [DocRead (collectionName, id)]. split; [done |]. split; [cbn; lia |].
          intros e He. apply list_elem_of_singleton in He. eauto. }
        split; [by cbn |].
        intros q Hq. rewrite app_assoc in Hq. by apply Hlimit in Hq.
      * split; [done |]. split; [done |]. split; [done |]. split; [by cbn |].
        intros q Hq. rewrite app_assoc in Hq. by apply Hlimit in Hq.
      * split; [done |]. split; [done |]. split; [done |]. split; [by cbn |].
        intros q Hq. rewrite app_assoc in Hq. by apply Hlimit in Hq.
    + unfold assembleQuery. cbn. rewrite Hpaging. cbn.
      split; [done |]. split; [done |]. split; [by apply Hquiet |].
      split; [done |]. by intros q [=].
  - destruct orderOptions as [field direction [pagingOptions|]];
      [|cbn; split; [done |]; split; [done |]; split; [by apply Hquiet |];
        split; [done |]; by intros q [=]].
    unfold assembleQuery, liftResult, call. cbn.
    destruct (PagingOptions.startAfter pagingOptions) as [v|];
      [destruct (truthy v) |]; cbn;
      repeat (destruct (refusedCall _ _); cbn);
      (split; [done |]); (split; [done |]); (split; [by apply Hquiet |]);
      (split; [done |]); intros q Hq; try discriminate Hq;
      injection Hq as <-; cbn; (split; [done |]);
      first [by eexists [_; _], _ | by eexists [_], _].
  - destruct bare as [pagingOptions|]; unfold assembleQuery, liftResult, call; cbn.
    + destruct (PagingOptions.startAfter pagingOptions) as [v|];
        [destruct (truthy v) |]; cbn;
        repeat (destruct (refusedCall _ _); cbn);
        (split; [done |]); (split; [done |]); (split; [by apply Hquiet |]);
        (split; [done |]); intros q Hq; try discriminate Hq;
        injection Hq as <-; cbn; (split; [done |]);
        first [by eexists [_; _], _ | by eexists [_], _].
    + split; [done |]. split; [done |]. split; [by apply Hquiet |].
      split; [done |]. intros q [= <-]. cbn. split; [done |]. by eexists [_], _.
  - cbn. split; [done |]. split; [done |]. split; [by apply Hquiet |].
    split; [done |]. by intros q [=].
Qed.

(** X7. Whatever the options, assembly leaves the documents as they are and
    asks the store for at most one document, of the collection it is given,
    and for none when there are no [whereOptions]; when it returns, the query
    is on that collection and its last call is a limit. *)
Theorem assembleQuery_invariants (collectionName : string)
    (options : option (QueryOptions.t TField)) (db : Firestore) :
  let out := assembleQuery collectionName options db in
  documents out.2 = documents db
  ∧ generated out.2 = generated db
  ∧ (∃ reads, trace out.2 = trace db ++ reads
              ∧ (length reads ≤ 1)%nat
              ∧ ∀ e, e ∈ reads → ∃ id, e = DocRead (collectionName, id))
  ∧ (options ≫= QueryOptions.whereOptions = None → out.2 = db)
  ∧ ∀ q, out.1 = Ok q →
         collection q = collectionName
         ∧ ∃ front n, calls q = front ++ [limit n].
Proof. apply assembleQuery_frame. Qed.

(** ** Reading a collection *)

Section GetCollectionFacts.

Variable queryGet :
  Query TField → gmap DocumentReference DocumentData →
  Result (list (string * DocumentData)).

(** X8. [getCollection] with [null] or no options throws a [TypeError]: the
    standard options are not fallen back on, and the store is not queried. *)
Theorem getCollection_null (this : Collection) (db : Firestore) :
  getCollection queryGet this None db = (Throw TypeError, db).
Proof. reflexivity. Qed.

(** X9. [getCollection] puts the assembled query to the store, on the
    documents as they are. It returns one record per document the store
    answers with, in the store's order: the record's [id] is the document's
    id, also when the document holds an [id] field of its own, and its other
    fields are the document's. An error of assembly or of the store is
    thrown on. *)
Theorem getCollection_ids (this : Collection)
    (options : option (QueryOptions.t TField)) (db : Firestore) :
  match (getCollection queryGet this options db).1 with
  | Ok objects =>
      ∃ q docs,
        (assembleQuery (collectionName this) options db).1 = Ok q
        ∧ queryGet q (documents db) = Ok docs
        ∧ Forall2 (fun (o : Js.object) (doc : string * DocumentData) =>
                     own o !! "id" = Some (VStr doc.1)
                     ∧ inherited o = ∅
                     ∧ ∀ f, f ≠ "id" → own o !! f = doc.2 !! f)
                  objects docs
  | Throw e =>
      (assembleQuery (collectionName this) options db).1 = Throw e
      ∨ ∃ q, (assembleQuery (collectionName this) options db).1 = Ok q
             ∧ queryGet q (documents db) = Throw e
  end.
Proof.
  pose proof (assembleQuery_frame (collectionName this) options db) as Hframe.
  cbv zeta in Hframe. destruct Hframe as (Hdocs & _).
  unfold getCollection, getCollectionFromDB, refGet, mbind, M_bind.
  destruct (assembleQuery (collectionName this) options db) as [[q|e] db'];
    cbn [fst snd] in *; [|by left].
  rewrite Hdocs.
  destruct (queryGet q (documents db)) as [docs|e] eqn:Hget; cbn [fst].
  - exists q, docs. split; [done |]. split; [done |].
    apply Forall2_fmap_l, Forall_Forall2_diag, Forall_forall.
    intros [id d] _. cbn. split; [apply lookup_insert_eq |].
    split; [done |]. intros f Hf. by apply lookup_insert_ne.
  - right. by exists q.
Qed.

End GetCollectionFacts.

End AssembleQueryBranches.

(** ** Creating, reading and deleting one document *)

Lemma getSingle_run (this : Collection) (id : string) (db : Firestore) :
  id ≠ "" →
  getSingle this id db
  = (Ok (documents db !! (collectionName this, id)),
     {| documents := documents db; generated := generated db;
        trace := trace db ++ [DocRead (collectionName this, id)] |}).
Proof.
  intros Hid. apply truthy_string in Hid.
  unfold getSingle, getSingleFromDB, mbind, M_bind.
  by rewrite (getDocumentSnapshot_run _ _ _ Hid).
Qed.

Lemma deleteSingle_run (this : Collection) (id : string) (db : Firestore) :
  id ≠ "" →
  deleteSingle this id db
  = (Ok tt,
     {| documents := delete (collectionName this, id) (documents db);
        generated := generated db; trace := trace db |}).
Proof.
  intros Hid. apply truthy_string in Hid.
  unfold deleteSingle, doc. by rewrite Hid.
Qed.

Section CreateFacts.

Context `{writeChecks : !WriteChecks}.

Variable autoId : nat → string.

Lemma accepted_None (d : DocumentData) :
  accepted d = true → refusedData d = None.
Proof. unfold accepted. apply bool_decide_eq_true_1. Qed.

(** X10. [addSingle] with [hasID] set, for an object whose [id] is missing
    or falsy, throws and asks nothing of the store. *)
Theorem addSingle_id_required (this : Collection) (object : Js.object)
    (db : Firestore) :
  truthy (get object "id") = false →
  addSingle autoId this object true db
  = (Throw (Error "ID required to add object."), db).
Proof. intros Hid. unfold addSingle. by rewrite Hid. Qed.

(** X11. [addSingle] with [hasID] set, for an [id] under which there is no
    document and an object whose properties but [id] the client takes: the
    object is returned as it is, and the document of that id now holds the
    object's own properties but [id]; the other documents are as they were.
    Read back with [getSingle], the record has no [id]. *)
Theorem addSingle_then_getSingle (this : Collection) (object : Js.object)
    (id : string) (db : Firestore) :
  get object "id" = VStr id →
  id ≠ "" →
  documents db !! (collectionName this, id) = None →
  accepted (delete "id" (own object)) = true →
  ∃ db',
    addSingle autoId this object true db = (Ok object, db')
    ∧ documents db'
      = <[(collectionName this, id) := delete "id" (own object)]> (documents db)
    ∧ ∃ stored,
        (getSingle this id db').1 = Ok (Some stored)
        ∧ stored = delete "id" (own object)
        ∧ stored !! "id" = None.
Proof.
  intros Hget Hid Hfresh Htaken. apply accepted_None in Htaken.
  rewrite (addSingle_hasID_run autoId this object id db Hget Hid), Hfresh, Htaken.
  eexists. split; [done |]. split; [done |].
  rewrite (getSingle_run this id _ Hid). cbn [fst documents].
  rewrite lookup_insert_eq.
  eexists. split; [done |]. split; [done |]. apply lookup_delete_eq.
Qed.

(** X12. After [addSingle] has created the document of an [id] (from an
    object whose properties but [id] the client takes), a second [addSingle]
    with [hasID] set for the same [id] throws the conflict error and leaves
    the documents as the first one left them. *)
Theorem addSingle_twice (this : Collection) (object object' : Js.object)
    (id : string) (db : Firestore) :
  get object "id" = VStr id →
  get object' "id" = VStr id →
  id ≠ "" →
  documents db !! (collectionName this, id) = None →
  accepted (delete "id" (own object)) = true →
  ∃ db' db'',
    addSingle autoId this object true db = (Ok object, db')
    ∧ addSingle autoId this object' true db'
      = (Throw (Error "Document with this ID already exists."), db'')
    ∧ documents db'' = documents db'.
Proof.
  intros Hget Hget' Hid Hfresh Htaken. apply accepted_None in Htaken.
  rewrite (addSingle_hasID_run autoId this object id db Hget Hid), Hfresh, Htaken.
  eexists _, _. split; [done |].
  rewrite (addSingle_hasID_run autoId this object' id _ Hget' Hid).
  cbn [documents]. rewrite lookup_insert_eq. done.
Qed.



(** X15. Deleting is idempotent and needs no document: [deleteSingle]
    returns whether the document exists or not, [getSingle] then finds
    nothing under the id, and the other documents are as they were. *)
Theorem deleteSingle_then_getSingle (this : Collection) (id : string)
    (db : Firestore) :
  id ≠ "" →
  ∃ db',
    deleteSingle this id db = (Ok tt, db')
    ∧ (getSingle this id db').1 = Ok None
    ∧ (∀ r, r ≠ (collectionName this, id) →
            documents db' !! r = documents db !! r)
    ∧ documents (deleteSingle this id db').2 = documents db'.
Proof.
  intros Hid. rewrite (deleteSingle_run this id db Hid).
  eexists. split; [done |].
  rewrite (getSingle_run this id _ Hid), (deleteSingle_run this id _ Hid).
  cbn [fst snd documents]. rewrite lookup_delete_eq.
  split; [done |]. split.
  - intros r Hr. by apply lookup_delete_ne.
  - apply delete_delete_eq.
Qed.

(** X16. Once a document is deleted, [addSingle] with [hasID] set creates
    it again without a conflict, from an object whose properties but [id]
    the client takes. *)
Theorem deleteSingle_then_addSingle (this : Collection) (object : Js.object)
    (id : string) (db : Firestore) :
  get object "id" = VStr id →
  id ≠ "" →
  accepted (delete "id" (own object)) = true →
  ∃ db' db'',
    deleteSingle this id db = (Ok tt, db')
    ∧ addSingle autoId this object true db' = (Ok object, db'')
    ∧ documents db'' !! (collectionName this, id)
      = Some (delete "id" (own object)).
Proof.
  intros Hget Hid Htaken. apply accepted_None in Htaken.
  rewrite (deleteSingle_run this id db Hid).
  eexists _, _. split; [done |].
  rewrite (addSingle_hasID_run autoId this object id _ Hget Hid).
  cbn [documents]. rewrite lookup_delete_eq, Htaken.
  split; [done |]. cbn [documents]. apply lookup_insert_eq.
Qed.

(** ** Creating many documents *)

(** The document a list of writes leaves under a key: the last write to
    that key. *)
Lemma foldl_insert_last (ws : list (DocumentReference * DocumentData))
    (m : gmap DocumentReference DocumentData) (i : nat)
    (k : DocumentReference) (d : DocumentData) :
  ws !! i = Some (k, d) →
  (∀ j w, (i < j)%nat → ws !! j = Some w → w.1 ≠ k) →
  foldl (fun m w => <[w.1 := w.2]> m) m ws !! k = Some d.
Proof.
  revert m i. induction ws as [|w ws IH]; intros m i Hi Hlater; [done |].
  cbn [foldl]. destruct i as [|i].
  - injection Hi as ->. cbn [fst snd].
    assert (∀ m' : gmap DocumentReference DocumentData, m' !! k = Some d →
                  foldl (fun m w => <[w.1 := w.2]> m) m' ws !! k = Some d) as Hkeep.
    { assert (∀ j w, ws !! j = Some w → w.1 ≠ k) as Hws
        by (intros j w Hj; apply (Hlater (S j) w); [lia | done]).
      clear -Hws. induction ws as [|w ws IH]; intros m' Hm'; [done |].
      cbn [foldl]. apply IH.
      - intros j w' Hj. by apply (Hws (S j)).
      - rewrite lookup_insert_ne; [done |]. by apply (Hws 0%nat). }
    apply Hkeep, lookup_insert_eq.
  - apply (IH _ i); [done |]. intros j w' Hj Hw'.
    apply (Hlater (S j) w'); [lia | done].
Qed.

(** A list of writes leaves alone the keys it does not write. *)
Lemma foldl_insert_other (ws : list (DocumentReference * DocumentData))
    (m : gmap DocumentReference DocumentData) (k : DocumentReference) :
  Forall (fun w => w.1 ≠ k) ws →
  foldl (fun m w => <[w.1 := w.2]> m) m ws !! k = m !! k.
Proof.
  intros Hws. revert m. induction Hws as [|w ws Hw _ IH]; intros m; [done |].
  cbn [foldl]. rewrite IH. by apply lookup_insert_ne.
Qed.

(** Where the [forEach] of [addMany] sends each well-typed record: to the
    record's [id] when it is truthy, to a generated id otherwise; always in
    the collection given. *)
Lemma queueAll_refs (collectionName : string) (objects : list Js.object)
    (writer : BulkWriter) (db : Firestore) :
  forallb idWellTyped objects = true →
  forallb (fun obj => accepted (spread obj)) objects = true →
  ∃ (refs : list DocumentReference) (generated' : nat),
    Forall2 (fun r obj =>
               r.1 = collectionName
               ∧ if truthy (get obj "id") then get obj "id" = VStr r.2
                 else ∃ n, r.2 = autoId n)
            refs objects
    ∧ queueAll autoId collectionName objects writer db
      = (Ok (writer ++ zip refs (map spread objects)),
         {| documents := documents db; generated := generated';
            trace := trace db |}).
Proof.
  revert writer db.
  induction objects as [|obj objects IH]; intros writer db Htyped Htaken.
  - exists [], (generated db). split; [constructor |].
    cbn. rewrite app_nil_r. by destruct db.
  - cbn [forallb] in Htyped. apply andb_true_iff in Htyped as [Hobj Htyped].
    cbn [forallb] in Htaken. apply andb_true_iff in Htaken as [Hdata Htaken].
    cbn [queueAll].
    assert (∃ r db1,
               (if truthy (get obj "id")
                then doc collectionName (get obj "id")
                else docAuto autoId collectionName) db = (Ok r, db1)
               ∧ documents db1 = documents db ∧ trace db1 = trace db
               ∧ r.1 = collectionName
               ∧ if truthy (get obj "id") then get obj "id" = VStr r.2
                 else ∃ n, r.2 = autoId n)
      as (r & db1 & Hr & Hdocs & Htrace & Hcoll & Hid).
    { unfold idWellTyped in Hobj.
      destruct (get obj "id") as [| |b|n|s|a] eqn:Hget; try discriminate Hobj.
      - eexists _, _. split; [reflexivity |]. cbn. eauto 6.
      - eexists _, _. split; [reflexivity |]. cbn. eauto 6.
      - change (truthy (VStr s)) with (truthy s).
        destruct (truthy s) eqn:Hs.
        + unfold doc. rewrite Hs. eexists _, _. split; [reflexivity |]. done.
        + eexists _, _. split; [reflexivity |]. cbn. eauto 6. }
    unfold mbind at 1, M_bind at 1. rewrite Hr.
    unfold mbind at 1, M_bind at 1.
    rewrite (validateData_accepted _ _ Hdata).
    destruct (IH (writer ++ [(r, spread obj)]) db1 Htyped Htaken)
      as (refs & generated' & Hrefs & Hrun).
    exists (r :: refs), generated'. split; [by constructor |].
    rewrite Hrun, Hdocs, Htrace. cbn [map zip zip_with].
    by rewrite <- app_assoc.
Qed.

(** [addMany] with at most 500 well-typed records, and where it writes. *)
Lemma addMany_refs (this : Collection) (objects : list Js.object) (db : Firestore) :
  (length objects ≤ 500)%nat →
  forallb idWellTyped objects = true →
  forallb (fun obj => accepted (spread obj)) objects = true →
  ∃ (refs : list DocumentReference) (db' : Firestore),
    Forall2 (fun r obj =>
               r.1 = collectionName this
               ∧ if truthy (get obj "id") then get obj "id" = VStr r.2
                 else ∃ n, r.2 = autoId n)
            refs objects
    ∧ addMany autoId this objects db = (Ok tt, db')
    ∧ documents db'
      = foldl (fun m w => <[w.1 := w.2]> m) (documents db)
              (zip refs (map spread objects))
    ∧ trace db'
      = trace db ++ map (fun w => DocWrite w.1 w.2) (zip refs (map spread objects)).
Proof.
  intros Hlen Htyped Htaken. unfold addMany.
  destruct (500 <? length objects)%nat eqn:Hguard;
    [apply Nat.ltb_lt in Hguard; lia |].
  destruct (queueAll_refs (collectionName this) objects [] db Htyped Htaken)
    as (refs & generated' & Hrefs & Hrun).
  unfold mbind, M_bind. rewrite Hrun, close_run.
  cbn [app documents trace generated].
  by eexists refs, _.
Qed.

(** X17. [addMany] never checks what is there: among records the client
    takes, a record with a non-empty [id] replaces whatever document the id
    named, no conflict is raised, and the document holds the record whole,
    [id] included, when no later record of the list has the same [id] (and
    the client generates no such id). [getSingle] then reads the record back
    with its [id] field. *)
Theorem addMany_then_getSingle (this : Collection) (objects : list Js.object)
    (db : Firestore) (i : nat) (obj : Js.object) (id : string) :
  (length objects ≤ 500)%nat →
  forallb idWellTyped objects = true →
  forallb (fun obj => accepted (spread obj)) objects = true →
  objects !! i = Some obj →
  own obj !! "id" = Some (VStr id) →
  id ≠ "" →
  (∀ j obj', (i < j)%nat → objects !! j = Some obj' → get obj' "id" ≠ VStr id) →
  (∀ n, autoId n ≠ id) →
  ∃ db',
    addMany autoId this objects db = (Ok tt, db')
    ∧ documents db' !! (collectionName this, id) = Some (own obj)
    ∧ (getSingle this id db').1 = Ok (Some (own obj))
    ∧ own obj !! "id" = Some (VStr id).
Proof.
  intros Hlen Htyped Htaken Hobj Hown Hid Hlater Hauto.
  destruct (addMany_refs this objects db Hlen Htyped Htaken)
    as (refs & db' & Hrefs & Hrun & Hdocs & _).
  assert (documents db' !! (collectionName this, id) = Some (own obj)) as Hstored.
  { rewrite Hdocs.
    pose proof (Forall2_length _ _ _ Hrefs) as Hlength.
    apply (foldl_insert_last _ _ i).
    - rewrite lookup_zip_with, list_lookup_fmap, Hobj.
      destruct (refs !! i) as [r|] eqn:Hr.
      + cbn. f_equal. f_equal.
        destruct (Forall2_lookup_lr _ _ _ _ _ _ Hrefs Hr Hobj) as [Hcoll Hkey].
        rewrite (own_get _ _ _ Hown) in Hkey.
        change (truthy (VStr id)) with (truthy id) in Hkey.
        rewrite (proj2 (truthy_string id) Hid) in Hkey.
        injection Hkey as Hkey. destruct r as [c k]. cbn in *. congruence.
      + apply lookup_ge_None in Hr. apply lookup_lt_Some in Hobj. lia.
    - intros j [r d] Hj Hw. cbn [fst]. intros ->.
      rewrite lookup_zip_with in Hw.
      destruct (refs !! j) as [r|] eqn:Hr; [|done]. cbn in Hw.
      rewrite list_lookup_fmap in Hw.
      destruct (objects !! j) as [obj'|] eqn:Hobj'; [|done].
      cbn in Hw. injection Hw as -> _.
      destruct (Forall2_lookup_lr _ _ _ _ _ _ Hrefs Hr Hobj') as [_ Hkey].
      cbn [snd] in Hkey. destruct (truthy (get obj' "id")).
      + by apply (Hlater j obj').
      + destruct Hkey as [n Hn]. by apply (Hauto n). }
  exists db'. split; [done |]. split; [done |].
  rewrite (getSingle_run this id _ Hid). cbn [fst]. by rewrite Hstored.
Qed.

(** X18. [addMany] of records the client takes reads nothing and writes to
    its own collection only: the documents of every other collection are as
    they were, and each thing asked of the store is a write to the accessor's
    collection, one per record. *)
Theorem addMany_own_collection (this : Collection) (objects : list Js.object)
    (db : Firestore) :
  (length objects ≤ 500)%nat →
  forallb idWellTyped objects = true →
  forallb (fun obj => accepted (spread obj)) objects = true →
  ∃ db' writes,
    addMany autoId this objects db = (Ok tt, db')
    ∧ trace db' = trace db ++ writes
    ∧ length writes = length objects
    ∧ (∀ e, e ∈ writes → ∃ k d, e = DocWrite (collectionName this, k) d)
    ∧ (∀ c k, c ≠ collectionName this →
              documents db' !! (c, k) = documents db !! (c, k)).
Proof.
  intros Hlen Htyped Htaken.
  destruct (addMany_refs this objects db Hlen Htyped Htaken)
    as (refs & db' & Hrefs & Hrun & Hdocs & Htrace).
  assert (Forall (fun w : DocumentReference * DocumentData =>
                    w.1.1 = collectionName this)
                 (zip refs (map spread objects))) as Hcoll.
  { apply Forall_forall. intros [r d] Hin.
    apply elem_of_zip_l in Hin. cbn [fst].
    apply list_elem_of_lookup in Hin as [j Hj].
    destruct (Forall2_lookup_l _ _ _ _ _ Hrefs Hj) as (obj & _ & Hr & _).
    done. }
  exists db', (map (fun w => DocWrite w.1 w.2) (zip refs (map spread objects))).
  split; [done |]. split; [done |]. split; [|split].
  - rewrite length_map, length_zip, length_map.
    apply Forall2_length in Hrefs. lia.
  - intros e He. apply list_elem_of_fmap in He as ([[c k] d] & -> & Hw).
    rewrite Forall_forall in Hcoll. specialize (Hcoll _ Hw). cbn in Hcoll.
    subst c. by eexists _, _.
  - intros c k Hc. rewrite Hdocs. apply foldl_insert_other.
    eapply Forall_impl; [exact Hcoll |].
    intros [[c' k'] d] Hw. cbn in *. congruence.
Qed.

End CreateFacts.

(** ** Projecting, again *)

(** The projected object, field by field. *)
Lemma assembleUpdateObject_lookup (this : Collection)
    (partialObject : Js.object) (updateType : Type_) :
  deriveUpdateType this partialObject = Some updateType →
  ∃ saveObject,
    assembleUpdateObject this partialObject = Ok saveObject
    ∧ ∀ f, saveObject !! f
           = if decide (f ≠ "type" ∧ f ∈ getOwnPropertyNames (blank updateType))
             then own partialObject !! f
             else None.
Proof.
  intros Hshape. unfold assembleUpdateObject. rewrite Hshape.
  eexists. split; [done |]. intros f.
  rewrite foldl_copyProp_lookup, lookup_empty.
  destruct (decide (f ∈ getOwnPropertyNames partialObject ∧ _))
    as [(Hin & Htype & Hprop & _) | Hno].
  - rewrite decide_True by done.
    apply elem_of_getOwnPropertyNames in Hin as [v Hv].
    by rewrite (own_get _ _ _ Hv).
  - destruct (decide (f ≠ "type" ∧ _)) as [[Htype Hprop] | _]; [|done].
    destruct (own partialObject !! f) as [v|] eqn:Hv; [|done].
    exfalso. apply Hno. repeat split; try done.
    + apply elem_of_getOwnPropertyNames. eauto.
    + apply own_has_property. eauto.
Qed.

(** Projection throws one error only. *)
Lemma assembleUpdateObject_throws (this : Collection)
    (partialObject : Js.object) (e : Exn) :
  assembleUpdateObject this partialObject = Throw e →
  deriveUpdateType this partialObject = None
  ∧ e = Error "Could not derive updateType from partialObject.".
Proof.
  unfold assembleUpdateObject.
  destruct (deriveUpdateType this partialObject); [done |]. by intros [= <-].
Qed.

(** X19. In single-shape mode, projecting is idempotent: the projected
    object, taken as a payload, is projected on itself. *)
Theorem assembleUpdateObject_idempotent (this : Collection)
    (partialObject : Js.object) (saveObject : DocumentData) :
  isSingleType this = true →
  assembleUpdateObject this partialObject = Ok saveObject →
  assembleUpdateObject this (literal saveObject) = Ok saveObject.
Proof.
  intros Hsingle Hfirst.
  destruct (deriveUpdateType this partialObject) as [updateType|] eqn:Hshape;
    [|unfold assembleUpdateObject in Hfirst; by rewrite Hshape in Hfirst].
  assert (deriveUpdateType this (literal saveObject) = Some updateType) as Hshape'.
  { unfold deriveUpdateType in *. by rewrite Hsingle in *. }
  destruct (assembleUpdateObject_lookup _ _ _ Hshape) as (o & Ho & Hfields).
  destruct (assembleUpdateObject_lookup _ _ _ Hshape') as (o' & Ho' & Hfields').
  rewrite Ho'. f_equal. assert (o = saveObject) as -> by congruence.
  apply map_eq. intros f. rewrite Hfields'. cbn [own literal].
  rewrite Hfields. by destruct (decide _).
Qed.

(** X20. In multi-shape mode, the projected object has lost its [type]:
    taken as a payload, it is refused. *)
Theorem assembleUpdateObject_not_a_payload (this : Collection)
    (partialObject : Js.object) (saveObject : DocumentData) :
  isSingleType this = false →
  assembleUpdateObject this partialObject = Ok saveObject →
  assembleUpdateObject this (literal saveObject)
  = Throw (Error "Could not derive updateType from partialObject.").
Proof.
  intros Hmulti Hfirst.
  destruct (deriveUpdateType this partialObject) as [updateType|] eqn:Hshape;
    [|unfold assembleUpdateObject in Hfirst; by rewrite Hshape in Hfirst].
  destruct (assembleUpdateObject_lookup _ _ _ Hshape) as (o & Ho & Hfields).
  assert (o = saveObject) as -> by congruence.
  assert (saveObject !! "type" = None) as Hnotype.
  { rewrite Hfields. rewrite decide_False; [done |]. by intros [? _]. }
  unfold assembleUpdateObject, deriveUpdateType. rewrite Hmulti.
  assert (find (fun t => has_property "type" (literal saveObject)
                         && strict_eq_string (toLocaleLowerCase (name t))
                              (get (literal saveObject) "type"))
               (types this) = None) as ->; [|done].
  apply find_none_iff. intros t _.
  unfold has_property. cbn [own inherited literal].
  rewrite Hnotype, lookup_empty.
  by rewrite !bool_decide_eq_false_2 by (by intros [? [=]]).
Qed.

(** X21. An accessor constructed with one shape projects every payload:
    no payload is refused, whatever its [type] is or whether it has one. *)
Theorem single_shape_projects_all (t : Type_) (collectionName : string)
    (partialObject : Js.object) :
  ∃ this saveObject,
    constructor [t] collectionName = Ok this
    ∧ assembleUpdateObject this partialObject = Ok saveObject.
Proof.
  eexists _, _. split; [reflexivity |].
  unfold assembleUpdateObject, deriveUpdateType. cbn. reflexivity.
Qed.

(** X22. In multi-shape mode a payload without a [type] property is
    refused, whichever the shapes are. *)
Theorem multi_shape_needs_type (this : Collection) (partialObject : Js.object) :
  isSingleType this = false →
  has_property "type" partialObject = false →
  assembleUpdateObject this partialObject
  = Throw (Error "Could not derive updateType from partialObject.").
Proof.
  intros Hmulti Hnotype.
  unfold assembleUpdateObject, deriveUpdateType. rewrite Hmulti, Hnotype.
  assert (find (fun t : Type_ =>
                  false && strict_eq_string (toLocaleLowerCase (name t))
                             (get partialObject "type"))
               (types this) = None) as ->; [|done].
  by apply find_none_iff.
Qed.

(** ** Updating documents *)

Section UpdateFacts.

Context `{writeChecks : !WriteChecks}.

Lemma refusedData_accepted (d : DocumentData) (db : Firestore) :
  refusedData d = None → validateData d db = (Ok tt, db).
Proof. unfold validateData. by intros ->. Qed.

Lemma doc_run (collectionName id : string) (db : Firestore) :
  id ≠ "" → doc collectionName (VStr id) db = (Ok (collectionName, id), db).
Proof. intros Hid. apply truthy_string in Hid. unfold doc. by rewrite Hid. Qed.

(** X23. When no shape can be derived for the payload, [updateSingle]
    throws before anything is asked of the store. *)
Theorem updateSingle_unresolved (this : Collection) (id : string)
    (partialObject : Js.object) (db : Firestore) :
  deriveUpdateType this partialObject = None →
  updateSingle this id partialObject db
  = (Throw (Error "Could not derive updateType from partialObject."), db).
Proof.
  intros Hshape. unfold updateSingle, assembleUpdateObject. by rewrite Hshape.
Qed.

(** X24. [updateSingle] on a document that exists, for a payload of which
    some field is kept and whose projection the client takes: the projected
    object is returned, and in the document a field takes the payload's
    value when it is not [type], is a field of the shape and is an own
    property of the payload; every other field of the document, [type] among
    them, is as it was, and so is every other document. *)
Theorem updateSingle_merges (this : Collection) (id : string)
    (partialObject : Js.object) (updateType : Type_)
    (old : DocumentData) (kept : string) (db : Firestore) :
  deriveUpdateType this partialObject = Some updateType →
  id ≠ "" →
  documents db !! (collectionName this, id) = Some old →
  kept ≠ "type" →
  kept ∈ getOwnPropertyNames (blank updateType) →
  is_Some (own partialObject !! kept) →
  (∀ saveObject, assembleUpdateObject this partialObject = Ok saveObject →
                 refusedData saveObject = None) →
  ∃ saveObject new db',
    updateSingle this id partialObject db = (Ok saveObject, db')
    ∧ assembleUpdateObject this partialObject = Ok saveObject
    ∧ documents db' = <[(collectionName this, id) := new]> (documents db)
    ∧ (∀ f, new !! f
            = if decide (f ≠ "type"
                         ∧ f ∈ getOwnPropertyNames (blank updateType)
                         ∧ is_Some (own partialObject !! f))
              then own partialObject !! f
              else old !! f)
    ∧ new !! "type" = old !! "type".
Proof.
  intros Hshape Hid Hold Hkept1 Hkept2 Hkept3 Htaken.
  destruct (assembleUpdateObject_lookup _ _ _ Hshape) as (saveObject & Hsave & Hfields).
  specialize (Htaken saveObject Hsave).
  assert (saveObject ≠ ∅) as Hnonempty.
  { intros ->. specialize (Hfields kept). rewrite lookup_empty in Hfields.
    rewrite decide_True in Hfields by done.
    destruct Hkept3 as [v Hv]. congruence. }
  assert (∀ f, (saveObject ∪ old) !! f
               = if decide (f ≠ "type"
                            ∧ f ∈ getOwnPropertyNames (blank updateType)
                            ∧ is_Some (own partialObject !! f))
                 then own partialObject !! f
                 else old !! f) as Hnew.
  { intros f. rewrite lookup_union, Hfields.
    destruct (decide (f ≠ "type" ∧ f ∈ _)) as [[H1 H2] | Hno].
    - destruct (own partialObject !! f) as [v|] eqn:Hv.
      + rewrite decide_True by eauto. by rewrite union_Some_l.
      + rewrite decide_False by (by intros (_ & _ & [? [=]])).
        by rewrite (left_id_L None _).
    - rewrite decide_False by (intros (? & ? & _); by apply Hno).
      by rewrite (left_id_L None _). }
  exists saveObject, (saveObject ∪ old). eexists.
  split; [|split; [done | split; [|split; [done |]]]].
  - unfold updateSingle, mbind, M_bind, liftResult. rewrite Hsave.
    rewrite (doc_run _ _ _ Hid). unfold docUpdate.
    rewrite (bool_decide_eq_false_2 _ Hnonempty).
    unfold mbind, M_bind. rewrite (refusedData_accepted _ _ Htaken).
    unfold merge. rewrite Hold. reflexivity.
  - reflexivity.
  - rewrite Hnew. rewrite decide_False; [done |]. by intros [? _].
Qed.

(** The first [map] of [updateMany] throws as soon as one payload has no
    shape. *)
Lemma projectAll_unresolved (this : Collection)
    (partialObjects : list (string * Js.object)) (po : string * Js.object) :
  po ∈ partialObjects →
  deriveUpdateType this po.2 = None →
  projectAll this partialObjects
  = Throw (Error "Could not derive updateType from partialObject.").
Proof.
  intros Hin Hshape.
  induction partialObjects as [|po' partialObjects IH]; [by apply elem_of_nil in Hin |].
  cbn [projectAll].
  destruct (assembleUpdateObject this po'.2) as [d|e] eqn:Hpo'.
  - apply elem_of_cons in Hin as [-> | Hin].
    + unfold assembleUpdateObject in Hpo'. by rewrite Hshape in Hpo'.
    + by rewrite IH.
  - by apply assembleUpdateObject_throws in Hpo' as [_ ->].
Qed.

(** What the first [map] of [updateMany] returns: for each payload, in
    order, its id and its projection. *)
Lemma projectAll_ok (this : Collection)
    (partialObjects : list (string * Js.object))
    (saveObjects : list (string * DocumentData)) :
  projectAll this partialObjects = Ok saveObjects →
  Forall2 (fun po o => o.1 = po.1 ∧ assembleUpdateObject this po.2 = Ok o.2)
          partialObjects saveObjects.
Proof.
  revert saveObjects.
  induction partialObjects as [|po partialObjects IH]; intros saveObjects;
    cbn [projectAll].
  - intros [= <-]. constructor.
  - destruct (assembleUpdateObject this po.2) as [d|e] eqn:Hpo; [|done].
    destruct (projectAll this partialObjects) as [rest|e]; [|done].
    intros [= <-]. constructor; [done |]. by apply IH.
Qed.

(** The [forEach] of [updateMany], for ids and updates the client accepts. *)
Lemma queueUpdates_run (collectionName : string)
    (saveObjects : list (string * DocumentData)) (batch : WriteBatch)
    (db : Firestore) :
  Forall (fun o => o.1 ≠ "" ∧ o.2 ≠ ∅ ∧ refusedData o.2 = None) saveObjects →
  queueUpdates collectionName saveObjects batch db
  = (Ok (batch ++ map (fun o => ((collectionName, o.1), o.2)) saveObjects), db).
Proof.
  intros Hok. revert batch.
  induction Hok as [|o saveObjects (Hid & Hdata & Htaken) _ IH]; intros batch;
    cbn [queueUpdates map].
  - by rewrite app_nil_r.
  - unfold mbind, M_bind. rewrite (doc_run _ _ _ Hid). unfold batchUpdate.
    rewrite (bool_decide_eq_false_2 _ Hdata).
    unfold mbind, M_bind. rewrite (refusedData_accepted _ _ Htaken). cbn.
    change (queueUpdates collectionName saveObjects
              (batch ++ [(collectionName, o.1, o.2)]) db)
      with (queueUpdates collectionName saveObjects
              (batch ++ [((collectionName, o.1), o.2)]) db).
    by rewrite IH, <- app_assoc.
Qed.

(** The updates of a batch whose documents all exist: they all reach the
    store; no document is created or lost, and the documents the batch does
    not name are as they were. *)
Lemma forEach_merge_run (batch : WriteBatch) (db : Firestore) :
  Forall (fun w => is_Some (documents db !! w.1)) batch →
  ∃ db',
    forEach (fun w => merge w.1 w.2) batch db = (Ok tt, db')
    ∧ (∀ r, is_Some (documents db' !! r) ↔ is_Some (documents db !! r))
    ∧ (∀ r, r ∉ batch.*1 → documents db' !! r = documents db !! r).
Proof.
  revert db. induction batch as [|w batch IH]; intros db Hexist.
  - exists db. by repeat split.
  - apply Forall_cons in Hexist as [[old Hold] Hexist].
    cbn [forEach]. unfold mbind, M_bind, merge at 1. rewrite Hold.
    unfold store.
    set (db1 := {| documents := <[w.1 := w.2 ∪ old]> (documents db);
                   generated := generated db;
                   trace := trace db ++ [DocWrite w.1 (w.2 ∪ old)] |}).
    assert (∀ r, is_Some (documents db1 !! r) ↔ is_Some (documents db !! r)) as Hsame.
    { intros r. subst db1. cbn [documents]. destruct (decide (w.1 = r)) as [<- | Hne].
      - rewrite lookup_insert_eq, Hold. split; eauto.
      - by rewrite lookup_insert_ne. }
    destruct (IH db1) as (db' & Hrun & Hkeys & Hothers).
    { eapply Forall_impl; [exact Hexist |]. intros w' Hw'. by apply Hsame. }
    exists db'. split; [done |]. split.
    + intros r. by rewrite Hkeys.
    + intros r Hr. cbn [fmap list_fmap] in Hr.
      apply not_elem_of_cons in Hr as [Hne Hr].
      rewrite (Hothers r Hr). subst db1. cbn [documents].
      by apply lookup_insert_ne.
Qed.

(** X26. [updateMany] projects every payload before it turns to the store:
    when one payload of the list has no shape, it throws and nothing is
    written, for the other payloads either. *)
Theorem updateMany_unresolved (this : Collection)
    (partialObjects : list (string * Js.object)) (po : string * Js.object)
    (db : Firestore) :
  po ∈ partialObjects →
  deriveUpdateType this po.2 = None →
  updateMany this partialObjects db
  = (Throw (Error "Could not derive updateType from partialObject."), db).
Proof.
  intros Hin Hshape. unfold updateMany, mbind, M_bind, liftResult.
  by rewrite (projectAll_unresolved this partialObjects po Hin Hshape).
Qed.

(** X28. [updateMany] on documents that all exist, for payloads whose
    projections the client takes, returns for each payload and in order the
    payload's id and its projection. It creates no document and loses none,
    and the documents whose id is not in the list are as they were. *)
Theorem updateMany_returns_projections (this : Collection)
    (partialObjects : list (string * Js.object))
    (saveObjects : list (string * DocumentData)) (db : Firestore) :
  projectAll this partialObjects = Ok saveObjects →
  Forall (fun o => o.1 ≠ "" ∧ o.2 ≠ ∅ ∧ refusedData o.2 = None) saveObjects →
  Forall (fun o => is_Some (documents db !! (collectionName this, o.1)))
         saveObjects →
  ∃ result db',
    updateMany this partialObjects db = (Ok result, db')
    ∧ Forall2 (fun po o => o.1 = po.1
                           ∧ assembleUpdateObject this po.2 = Ok o.2)
              partialObjects result
    ∧ (∀ r, is_Some (documents db' !! r) ↔ is_Some (documents db !! r))
    ∧ (∀ r, (∀ po, po ∈ partialObjects → r ≠ (collectionName this, po.1)) →
            documents db' !! r = documents db !! r).
Proof.
  intros Hproject Hok Hexist.
  pose proof (projectAll_ok _ _ _ Hproject) as Hpairs.
  set (batch := map (fun o : string * DocumentData =>
                       ((collectionName this, o.1), o.2)) saveObjects).
  assert (Forall (fun w : DocumentReference * DocumentData =>
                    is_Some (documents db !! w.1)) batch) as Hbatch.
  { subst batch. by apply Forall_fmap. }
  destruct (forEach_merge_run batch db Hbatch) as (db' & Hrun & Hkeys & Hothers).
  assert (zip_with (fun (po : string * Js.object) (o : string * DocumentData) =>
                      (po.1, o.2)) partialObjects saveObjects = saveObjects)
    as Hresult.
  { clear -Hpairs. induction Hpairs as [|po o pos os [Hid _] _ IH]; [done |].
    cbn [zip_with]. rewrite IH. destruct o as [k d]. cbn in *. by subst. }
  exists saveObjects, db'. split; [|split; [done | split; [done |]]].
  - unfold updateMany, mbind, M_bind, liftResult. rewrite Hproject.
    rewrite (queueUpdates_run _ _ _ _ Hok). cbn [app]. fold batch.
    unfold commit.
    assert (forallb (fun w : DocumentReference * DocumentData =>
                       bool_decide (is_Some (documents db !! w.1))) batch
            = true) as ->.
    { apply forallb_forall. intros w Hw. apply bool_decide_eq_true_2.
      rewrite Forall_forall in Hbatch. by apply Hbatch, list_elem_of_In. }
    rewrite Hrun. unfold mret, M_ret. by rewrite Hresult.
  - intros r Hr. apply Hothers. subst batch. intros Hin.
    apply list_elem_of_fmap in Hin as (w & -> & Hw).
    apply list_elem_of_fmap in Hw as (o & -> & Ho). cbn [fst] in Hr.
    apply list_elem_of_lookup in Ho as [j Hj].
    destruct (Forall2_lookup_r _ _ _ _ _ Hpairs Hj) as (po & Hpo & Hid & _).
    apply (Hr po); [by eapply list_elem_of_lookup_2 |]. by rewrite Hid.
Qed.

(** X29. [updateMany] of a single payload does what [updateSingle] does: the
    same thing is thrown or the same projection returned (in a list of one,
    with the id), and the store is left in the same state. *)
Theorem updateMany_singleton (this : Collection) (id : string)
    (partialObject : Js.object) (db : Firestore) :
  updateMany this [(id, partialObject)] db
  = ((fun d => [(id, d)]) <$> updateSingle this id partialObject) db.
Proof.
  unfold updateMany, updateSingle, fmap, M_fmap, mbind, M_bind, liftResult.
  cbn [projectAll snd fst].
  destruct (assembleUpdateObject this partialObject) as [saveObject|e]; [|done].
  cbn [queueUpdates fst snd]. unfold mbind, M_bind.
  destruct (doc (collectionName this) (VStr id) db) as [[r|e] db1] eqn:Hdoc; [|done].
  assert (db1 = db) as ->.
  { unfold doc in Hdoc. destruct (truthy id); by injection Hdoc. }
  unfold batchUpdate, docUpdate.
  destruct (bool_decide (saveObject = ∅)); [done |].
  unfold mbind, M_bind, validateData.
  destruct (refusedData saveObject); [done |].
  cbn [app]. unfold mret, M_ret, commit.
  cbn [forallb fst snd forEach]. rewrite andb_true_r.
  unfold mbind, M_bind, merge, mret, M_ret.
  destruct (documents db !! r) as [old|] eqn:Hold.
  - rewrite bool_decide_eq_true_2 by eauto. done.
  - rewrite bool_decide_eq_false_2 by (by intros [? [=]]). done.
Qed.

End UpdateFacts.

(** ** The further properties on the sample data *)

Section ExtrasOnSamples.

#[local] Existing Instance Sample.noUndefined.
#[local] Existing Instance Sample.strictValues.
#[local] Existing Instance Sample.strictStrings.

Lemma assembleQuery_paging_without_cursor_sample :
  assembleQuery "dogs" (Some STANDARD) Sample.stocked
  = (Ok (mkQuery "dogs" [orderBy (byPath documentId) None; limit 10%Z]),
     Sample.stocked).
Proof.
  apply (assembleQuery_paging_without_cursor "dogs"
           (PagingOptions.make None 10%Z) Sample.stocked).
  reflexivity.
Defined.

Lemma assembleQuery_where_cursor_sample :
  ∃ filters : list (QueryCall value),
    Forall (fun c => (∃ field operation v, c = where_ field operation v)
                     ∨ (∃ filter, c = whereFilter filter)) filters
    ∧ assembleQuery "dogs"
        (Some (QueryOptions.make (Some Sample.adultsAfterRex) None None))
        Sample.stocked
      = (callAll (mkQuery "dogs" [])
           (filters
            ++ [startAfter
                  (atSnapshot
                     {| ref := ("dogs", "rex");
                        data := documents Sample.stocked !! ("dogs", "rex") |});
                limit 5%Z]),
         {| documents := documents Sample.stocked;
            generated := generated Sample.stocked;
            trace := trace Sample.stocked ++ [DocRead ("dogs", "rex")] |}).
Proof.
  apply (assembleQuery_where_cursor "dogs" Sample.adultsAfterRex
           (PagingOptions.make (Some "rex") 5%Z) "rex" None Sample.stocked).
  - reflexivity.
  - reflexivity.
  - discriminate.
Defined.

Lemma assembleQuery_where_no_cursor_sample :
  ∃ filters : list (QueryCall value),
    Forall (fun c => (∃ field operation v, c = where_ field operation v)
                     ∨ (∃ filter, c = whereFilter filter)) filters
    ∧ assembleQuery "dogs"
        (Some (QueryOptions.make
                 (Some (WhereOptions.make Sample.adults (Some or_)
                          (Some (PagingOptions.make (Some "") 5%Z))))
                 None None)) Sample.stocked
      = (callAll (mkQuery "dogs" []) (filters ++ [limit 5%Z]), Sample.stocked).
Proof.
  apply (assembleQuery_where_no_cursor "dogs"
           (WhereOptions.make Sample.adults (Some or_)
              (Some (PagingOptions.make (Some "") 5%Z)))
           (PagingOptions.make (Some "") 5%Z) None Sample.stocked).
  - reflexivity.
  - reflexivity.
Defined.

(** The client refuses the snapshot of [dogs/gone], which does not exist:
    assembly throws, the document read. *)
Example cursor_on_a_missing_document :
  assembleQuery "dogs"
    (Some (QueryOptions.make
             (Some (WhereOptions.make Sample.adults None
                      (Some (PagingOptions.make (Some "gone") 5%Z))))
             None None)) Sample.stocked
  = (Throw (Error "The snapshot is of a document that does not exist."),
     {| documents := documents Sample.stocked;
        generated := generated Sample.stocked;
        trace := [DocRead ("dogs", "gone")] |}).
Proof. vm_compute. reflexivity. Qed.

Lemma addSingle_id_required_sample :
  addSingle Sample.autoId Sample.dogs Sample.rename true Sample.stocked
  = (Throw (Error "ID required to add object."), Sample.stocked).
Proof.
  apply (addSingle_id_required Sample.autoId Sample.dogs Sample.rename
           Sample.stocked).
  vm_compute. reflexivity.
Defined.

Lemma addSingle_then_getSingle_sample :
  ∃ db',
    addSingle Sample.autoId Sample.dogs Sample.rex true Sample.empty
    = (Ok Sample.rex, db')
    ∧ documents db'
      = <[("dogs", "rex") := delete "id" (own Sample.rex)]>
          (documents Sample.empty)
    ∧ ∃ stored,
        (getSingle Sample.dogs "rex" db').1 = Ok (Some stored)
        ∧ stored = delete "id" (own Sample.rex)
        ∧ stored !! "id" = None.
Proof.
  apply (addSingle_then_getSingle Sample.autoId Sample.dogs Sample.rex "rex"
           Sample.empty).
  - vm_compute. reflexivity.
  - discriminate.
  - vm_compute. reflexivity.
  - vm_compute. reflexivity.
Defined.

Lemma addSingle_twice_sample :
  ∃ db' db'',
    addSingle Sample.autoId Sample.dogs Sample.rex true Sample.empty
    = (Ok Sample.rex, db')
    ∧ addSingle Sample.autoId Sample.dogs Sample.rex true db'
      = (Throw (Error "Document with this ID already exists."), db'')
    ∧ documents db'' = documents db'.
Proof.
  apply (addSingle_twice Sample.autoId Sample.dogs Sample.rex Sample.rex "rex"
           Sample.empty).
  - vm_compute. reflexivity.
  - vm_compute. reflexivity.
  - discriminate.
  - vm_compute. reflexivity.
  - vm_compute. reflexivity.
Defined.



Lemma deleteSingle_then_getSingle_sample :
  ∃ db',
    deleteSingle Sample.dogs "rex" Sample.stocked = (Ok tt, db')
    ∧ (getSingle Sample.dogs "rex" db').1 = Ok None
    ∧ (∀ r, r ≠ ("dogs", "rex") →
            documents db' !! r = documents Sample.stocked !! r)
    ∧ documents (deleteSingle Sample.dogs "rex" db').2 = documents db'.
Proof.
  apply (deleteSingle_then_getSingle Sample.dogs "rex" Sample.stocked).
  discriminate.
Defined.

Lemma deleteSingle_then_addSingle_sample :
  ∃ db' db'',
    deleteSingle Sample.dogs "rex" Sample.stocked = (Ok tt, db')
    ∧ addSingle Sample.autoId Sample.dogs Sample.rex true db'
      = (Ok Sample.rex, db'')
    ∧ documents db'' !! ("dogs", "rex") = Some (delete "id" (own Sample.rex)).
Proof.
  apply (deleteSingle_then_addSingle Sample.autoId Sample.dogs Sample.rex "rex"
           Sample.stocked).
  - vm_compute. reflexivity.
  - discriminate.
  - vm_compute. reflexivity.
Defined.

Lemma addMany_then_getSingle_sample :
  ∃ db',
    addMany Sample.autoId Sample.dogs [Sample.rex; Sample.tom] Sample.stocked
    = (Ok tt, db')
    ∧ documents db' !! ("dogs", "rex") = Some (own Sample.rex)
    ∧ (getSingle Sample.dogs "rex" db').1 = Ok (Some (own Sample.rex))
    ∧ own Sample.rex !! "id" = Some (VStr "rex").
Proof.
  apply (addMany_then_getSingle Sample.autoId Sample.dogs
           [Sample.rex; Sample.tom] Sample.stocked 0%nat Sample.rex "rex").
  - simpl. lia.
  - vm_compute. reflexivity.
  - vm_compute. reflexivity.
  - reflexivity.
  - vm_compute. reflexivity.
  - discriminate.
  - intros [|[|j]] obj' Hj Hobj'; [lia | | discriminate Hobj'].
    injection Hobj' as <-. vm_compute. discriminate.
  - intros n. unfold Sample.autoId. simpl. discriminate.
Defined.

Lemma addMany_own_collection_sample :
  ∃ db' writes,
    addMany Sample.autoId Sample.dogs [Sample.rex; Sample.rename] Sample.stocked
    = (Ok tt, db')
    ∧ trace db' = trace Sample.stocked ++ writes
    ∧ length writes = length [Sample.rex; Sample.rename]
    ∧ (∀ e, e ∈ writes → ∃ k d, e = DocWrite ("dogs", k) d)
    ∧ (∀ c k, c ≠ "dogs" →
              documents db' !! (c, k) = documents Sample.stocked !! (c, k)).
Proof.
  apply (addMany_own_collection Sample.autoId Sample.dogs
           [Sample.rex; Sample.rename] Sample.stocked).
  - simpl. lia.
  - vm_compute. reflexivity.
  - vm_compute. reflexivity.
Defined.

Lemma assembleUpdateObject_idempotent_sample :
  assembleUpdateObject Sample.dogs (literal {[ "name" := VStr "Rex" ]})
  = Ok {[ "name" := VStr "Rex" ]}.
Proof.
  apply (assembleUpdateObject_idempotent Sample.dogs Sample.update).
  - reflexivity.
  - vm_compute. reflexivity.
Defined.

Lemma assembleUpdateObject_not_a_payload_sample :
  assembleUpdateObject Sample.pets (literal {[ "name" := VStr "Rex" ]})
  = Throw (Error "Could not derive updateType from partialObject.").
Proof.
  apply (assembleUpdateObject_not_a_payload Sample.pets Sample.update).
  - reflexivity.
  - vm_compute. reflexivity.
Defined.

Lemma multi_shape_needs_type_sample :
  assembleUpdateObject Sample.pets Sample.rename
  = Throw (Error "Could not derive updateType from partialObject.").
Proof.
  apply (multi_shape_needs_type Sample.pets Sample.rename).
  - reflexivity.
  - vm_compute. reflexivity.
Defined.

Lemma updateSingle_unresolved_sample :
  updateSingle Sample.pets "rex" Sample.capitalised Sample.stocked
  = (Throw (Error "Could not derive updateType from partialObject."),
     Sample.stocked).
Proof.
  apply (updateSingle_unresolved Sample.pets "rex" Sample.capitalised
           Sample.stocked).
  vm_compute. reflexivity.
Defined.

Lemma updateSingle_merges_sample :
  ∃ saveObject new db',
    updateSingle Sample.dogs "rex" Sample.update Sample.labelled
    = (Ok saveObject, db')
    ∧ assembleUpdateObject Sample.dogs Sample.update = Ok saveObject
    ∧ documents db' = <[("dogs", "rex") := new]> (documents Sample.labelled)
    ∧ (∀ f, new !! f
            = if decide (f ≠ "type"
                         ∧ f ∈ getOwnPropertyNames (blank Sample.Dog)
                         ∧ is_Some (own Sample.update !! f))
              then own Sample.update !! f
              else ({[ "id" := VStr "other"; "name" := VStr "Old Rex" ]}
                      : DocumentData) !! f)
    ∧ new !! "type"
      = ({[ "id" := VStr "other"; "name" := VStr "Old Rex" ]} : DocumentData)
          !! "type".
Proof.
  apply (updateSingle_merges Sample.dogs "rex" Sample.update Sample.Dog
           {[ "id" := VStr "other"; "name" := VStr "Old Rex" ]} "name"
           Sample.labelled).
  - vm_compute. reflexivity.
  - discriminate.
  - vm_compute. reflexivity.
  - discriminate.
  - apply elem_of_getOwnPropertyNames. vm_compute. eauto.
  - vm_compute. eauto.
  - intros saveObject Hsave. vm_compute in Hsave. injection Hsave as <-.
    vm_compute. reflexivity.
Defined.

Lemma updateMany_unresolved_sample :
  updateMany Sample.pets
    [("rex", Sample.update); ("tom", Sample.capitalised)] Sample.stocked
  = (Throw (Error "Could not derive updateType from partialObject."),
     Sample.stocked).
Proof.
  apply (updateMany_unresolved Sample.pets
           [("rex", Sample.update); ("tom", Sample.capitalised)]
           ("tom", Sample.capitalised) Sample.stocked).
  - repeat constructor.
  - vm_compute. reflexivity.
Defined.

Lemma updateMany_returns_projections_sample :
  ∃ result db',
    updateMany Sample.dogs [("rex", Sample.update)] Sample.stocked
    = (Ok result, db')
    ∧ Forall2 (fun po o => o.1 = po.1
                           ∧ assembleUpdateObject Sample.dogs po.2 = Ok o.2)
              [("rex", Sample.update)] result
    ∧ (∀ r, is_Some (documents db' !! r)
            ↔ is_Some (documents Sample.stocked !! r))
    ∧ (∀ r, (∀ po, po ∈ [("rex", Sample.update)] → r ≠ ("dogs", po.1)) →
            documents db' !! r = documents Sample.stocked !! r).
Proof.
  apply (updateMany_returns_projections Sample.dogs [("rex", Sample.update)]
           [("rex", {[ "name" := VStr "Rex" ]})] Sample.stocked).
  - vm_compute. reflexivity.
  - apply (bool_decide_unpack _). vm_compute. exact I.
  - apply (bool_decide_unpack _). vm_compute. exact I.
Defined.

Example getCollection_labelled :
  (getCollection Sample.everyDocument Sample.dogs (Some STANDARD) Sample.labelled).1
  = Ok [literal {[ "id" := VStr "rex"; "name" := VStr "Old Rex" ]}].
Proof. vm_compute. reflexivity. Qed.

Example updateSingle_labelled :
  documents (updateSingle Sample.dogs "rex" Sample.update Sample.labelled).2
  = {[ ("dogs", "rex") := {[ "id" := VStr "other"; "name" := VStr "Rex" ]} ]}.
Proof. vm_compute. reflexivity. Qed.

(** The client refuses an update whose one field is [undefined]: nothing is
    written. *)
Example updateSingle_undefined_refused :
  updateSingle Sample.dogs "rex" (literal {[ "name" := VUndefined ]})
    Sample.stocked
  = (Throw (Error "Cannot use undefined as a Firestore value."), Sample.stocked).
Proof. vm_compute. reflexivity. Qed.

End ExtrasOnSamples.
